(** * E-commerce real-time data pipeline: ingress, stream job, commit protocol

    A shallow embedding of

    - [api/main.py]: the FastAPI ingress ([EventModel], [send_event]);
    - [spark-apps/spark_streaming.py]: the structured-streaming job
      ([ecommerce_base_schema], [parsed_df], [cleaned_df], [invalid_df],
      the table definition, the final column selection and the
      try/except/finally block around the streaming writer);

    together with the properties the specification states about them.

    A Kafka record value is represented by its decoding as a JSON object; a
    DataFrame is the list of its rows, a row the ordered list of its named
    cells.  The Spark SQL functions the job calls are given their documented
    semantics in module [Spark]; what depends on the deployment (session time
    zone, the string-to-timestamp cast, the JSON partial-result switch) is a
    field of [Spark.Session]. *)

From Stdlib Require Import ZArith List String Ascii Lia.
From stdpp Require Import base option list gmap strings pretty.
Import ListNotations.
Local Open Scope Z_scope.

(** ** JSON values *)

Module Json.

(** A decoded JSON value.  Arrays and objects nested inside a payload are kept
    as their source text: no column of the job and no field of the ingress
    model has a structured type. *)
Inductive jvalue : Type :=
  | JNull
  | JBool (b : bool)
  | JInt (n : Z)
  | JFloat (lit : string)
  | JStr (s : string)
  | JNested (raw : string).

#[global] Instance jvalue_eq_dec : EqDecision jvalue.
Proof. solve_decision. Defined.

(** The text of a scalar token, as a JSON generator writes it. *)
Definition json_text (v : jvalue) : string :=
  match v with
  | JNull => "null"
  | JBool true => "true"
  | JBool false => "false"
  | JInt n => pretty n
  | JFloat lit => lit
  | JStr s => s
  | JNested raw => raw
  end.

End Json.

Import Json.

(** A record value: [None] when the bytes are not a JSON object. *)
Abbreviation payload := (option (gmap string jvalue)).

(** ** The Spark SQL operations used by the job *)

Module Spark.

Inductive DataType : Type := StringType | IntegerType | DoubleType.

Record StructField : Type :=
  { name : string; dataType : DataType; nullable : bool }.

Inductive cell : Type :=
  | CNull
  | CString (s : string)
  | CInt (n : Z)
  | CDouble (lit : string)
  | CTimestamp (micros : Z).

#[global] Instance cell_eq_dec : EqDecision cell.
Proof. solve_decision. Defined.

Definition isNull (c : cell) : bool :=
  match c with CNull => true | _ => false end.

Definition row : Type := list (string * cell).

(** What the job inherits from the Spark session it runs in.
    - [session_zone t]: offset east of UTC, in seconds, of the session time
      zone ([spark.sql.session.timeZone], by default the JVM's zone) at the
      instant [t] (microseconds since the epoch);
    - [cast_timestamp s]: the cast of a string to a timestamp, [None] when
      the string is not a timestamp;
    - [partial_results]: whether a field that fails to convert is nulled
      alone ([spark.sql.json.enablePartialResults]) or nulls the record. *)
Record Session : Type :=
  { session_zone : Z -> Z;
    cast_timestamp : string -> option Z;
    partial_results : bool }.

(** Names of the non-finite doubles the JSON reader accepts as strings. *)
Definition special_doubles : list string :=
  ["NaN"; "Infinity"; "+Infinity"; "-Infinity"; "INF"; "+INF"; "-INF"]%string.

(** Conversion of one JSON token to a column type; [None] is a failed
    conversion.  A string column takes the text of any token; an integer
    column takes integer tokens in the 32-bit range; a double column takes
    numeric tokens and the names of the non-finite doubles. *)
Definition convert (t : DataType) (v : jvalue) : option cell :=
  match v with
  | JNull => Some CNull
  | _ =>
    match t with
    | StringType => Some (CString (json_text v))
    | IntegerType =>
        match v with
        | JInt n =>
            if (- 2147483648 <=? n) && (n <=? 2147483647)
            then Some (CInt n) else None
        | _ => None
        end
    | DoubleType =>
        match v with
        | JInt n => Some (CDouble (pretty n))
        | JFloat lit => Some (CDouble lit)
        | JStr s => if bool_decide (s ∈ special_doubles)
                    then Some (CDouble s) else None
        | _ => None
        end
    end
  end.

(** A field absent from the object reads as null. *)
Definition field_token (o : gmap string jvalue) (f : StructField) : jvalue :=
  default JNull (o !! name f).

(** Whether every field of the object converts, or failures are tolerated. *)
Definition conversions_ok (env : Session) (schema : list StructField)
    (o : gmap string jvalue) : bool :=
  partial_results env
  || forallb (fun f => bool_decide (is_Some (convert (dataType f) (field_token o f))))
       schema.

(** The cell [from_json] gives a schema field.  A value that is not an
    object gives null for every field; so does an object with a failed
    conversion, unless partial results are on, in which case only the
    failing field is null. *)
Definition json_cell (env : Session) (schema : list StructField)
    (value : payload) (f : StructField) : cell :=
  match value with
  | None => CNull
  | Some o =>
      if conversions_ok env schema o
      then default CNull (convert (dataType f) (field_token o f))
      else CNull
  end.

(** [from_json(value, schema, {"mode": "PERMISSIVE"})] followed by
    [select("data.*")]: one cell per schema field, in schema order.  Keys of
    the object that are not schema fields are not read. *)
Definition from_json (env : Session) (schema : list StructField)
    (value : payload) : row :=
  map (fun f => (name f, json_cell env schema value f)) schema.

(** [col(n)] evaluated on a row.  The job only names columns its DataFrames
    have (lemma [parsed_row_columns]); the default
    is never reached there. *)
Fixpoint col (n : string) (r : row) : cell :=
  match r with
  | [] => CNull
  | (n', c) :: r' => if String.eqb n n' then c else col n r'
  end.

Fixpoint set_column (n : string) (c : cell) (r : row) : row :=
  match r with
  | [] => [(n, c)]
  | (n', c') :: r' =>
      if String.eqb n n' then (n, c) :: r' else (n', c') :: set_column n c r'
  end.

(** [withColumn(n, e)]: replaces the column in place when the row has it,
    appends it otherwise; [e] is evaluated on the row before the change. *)
Definition withColumn (n : string) (e : row -> cell) (r : row) : row :=
  set_column n (e r) r.

Definition select (names : list string) (r : row) : row :=
  map (fun n => (n, col n r)) names.

Definition columns (r : row) : list string := map fst r.

(** [dropna(subset=names)] keeps the rows with no null among [names]. *)
Definition no_nulls (names : list string) (r : row) : bool :=
  forallb (fun n => negb (isNull (col n r))) names.

Definition dropna (names : list string) (df : list row) : list row :=
  List.filter (no_nulls names) df.

(** [to_timestamp(c)] without a format is the cast of the string column. *)
Definition to_timestamp (env : Session) (c : cell) : cell :=
  match c with
  | CString s =>
      match cast_timestamp env s with
      | Some t => CTimestamp t
      | None => CNull
      end
  | CTimestamp t => CTimestamp t
  | _ => CNull
  end.

Definition micros_per_second : Z := 1000000.
Definition seconds_per_day : Z := 86400.

(** Day number (days since 1970-01-01) of the calendar date an instant falls
    on in a zone with the given offset. *)
Definition days_at_offset (off : Z) (micros : Z) : Z :=
  (micros + off * micros_per_second) / (seconds_per_day * micros_per_second).

Definition utc_days (micros : Z) : Z := days_at_offset 0 micros.

Definition local_days (env : Session) (micros : Z) : Z :=
  days_at_offset (session_zone env micros) micros.

(** Proleptic Gregorian date (year, month, day) of a day number. *)
Definition civil_from_days (days : Z) : Z * Z * Z :=
  let z := days + 719468 in
  let era := z / 146097 in
  let doe := z - era * 146097 in
  let yoe := (doe - doe / 1460 + doe / 36524 - doe / 146096) / 365 in
  let doy := doe - (365 * yoe + yoe / 4 - yoe / 100) in
  let mp := (5 * doy + 2) / 153 in
  let d := doy - (153 * mp + 2) / 5 + 1 in
  let m := if mp <? 10 then mp + 3 else mp - 9 in
  let y := yoe + era * 400 + (if m <=? 2 then 1 else 0) in
  (y, m, d).

Definition days_from_civil (y m d : Z) : Z :=
  let y' := if m <=? 2 then y - 1 else y in
  let era := y' / 400 in
  let yoe := y' - era * 400 in
  let doy := (153 * (if 2 <? m then m - 3 else m + 9) + 2) / 5 + d - 1 in
  let doe := yoe * 365 + yoe / 4 - yoe / 100 + doy in
  era * 146097 + doe - 719468.

Fixpoint zeros (n : nat) : string :=
  match n with
  | O => ""
  | S n' => "0" +:+ zeros n'
  end.

Definition zero_pad (width : nat) (s : string) : string :=
  zeros (width - String.length s) +:+ s.

(** The pattern [yyyy-MM-dd] applied to a day number. *)
Definition format_date (days : Z) : string :=
  let '(y, m, d) := civil_from_days days in
  (if y <? 0 then "-" else "") +:+ zero_pad 4 (pretty (Z.abs y))
    +:+ "-" +:+ zero_pad 2 (pretty m) +:+ "-" +:+ zero_pad 2 (pretty d).

(** [date_format(c, "yyyy-MM-dd")], the one pattern the job uses: the
    calendar date of the timestamp in the session time zone. *)
Definition date_format (env : Session) (c : cell) : cell :=
  match c with
  | CTimestamp t => CString (format_date (local_days env t))
  | _ => CNull
  end.

End Spark.

Import Spark.

(** ** A reference timestamp cast

    The ISO-8601 form the event generator emits and that the specification's
    scenarios use: [yyyy-MM-dd], a [T] or a space, [HH:mm:ss], and an optional
    [Z].  A string without [Z] is a local time of the session zone. *)

Module Iso8601.

Definition digit (a : ascii) : option Z :=
  let n := Z.of_nat (nat_of_ascii a) in
  if (48 <=? n) && (n <=? 57) then Some (n - 48) else None.

Fixpoint number_from (acc : Z) (s : string) : option Z :=
  match s with
  | EmptyString => Some acc
  | String a s' => d ← digit a; number_from (10 * acc + d) s'
  end.

Definition number (s : string) : option Z :=
  match s with
  | EmptyString => None
  | _ => number_from 0 s
  end.

Definition is_leap (y : Z) : bool :=
  (y mod 4 =? 0) && (negb (y mod 100 =? 0) || (y mod 400 =? 0)).

Definition days_in_month (y m : Z) : Z :=
  if m =? 2 then (if is_leap y then 29 else 28)
  else if (m =? 4) || (m =? 6) || (m =? 9) || (m =? 11) then 30
  else 31.

Definition expect (s : string) (at_ : nat) (chars : list ascii) : option unit :=
  match String.get at_ s with
  | Some a => if bool_decide (a ∈ chars) then Some tt else None
  | None => None
  end.

(** [cast off s]: the instant, in microseconds since the epoch, that [s]
    denotes in a session whose zone is the fixed offset [off] (seconds). *)
Definition cast (off : Z) (s : string) : option Z :=
  y ← number (String.substring 0 4 s);
  _ ← expect s 4 ["-"%char];
  m ← number (String.substring 5 2 s);
  _ ← expect s 7 ["-"%char];
  d ← number (String.substring 8 2 s);
  _ ← expect s 10 ["T"%char; " "%char];
  hh ← number (String.substring 11 2 s);
  _ ← expect s 13 [":"%char];
  mm ← number (String.substring 14 2 s);
  _ ← expect s 16 [":"%char];
  ss ← number (String.substring 17 2 s);
  zone ← (if String.eqb (String.substring 19 (String.length s - 19) s) "" then Some off
          else if String.eqb (String.substring 19 (String.length s - 19) s) "Z" then Some 0
          else None);
  if (1 <=? m) && (m <=? 12) && (1 <=? d) && (d <=? days_in_month y m)
     && (hh <? 24) && (mm <? 60) && (ss <? 60) && (String.length s <=? 20)%nat
  then Some (((days_from_civil y m d * seconds_per_day
               + hh * 3600 + mm * 60 + ss) - zone) * micros_per_second)
  else None.

(** A session in a fixed-offset zone that casts with [cast]. *)
Definition session (off : Z) (partial : bool) : Session :=
  {| session_zone := fun _ => off;
     cast_timestamp := cast off;
     partial_results := partial |}.

Definition utc_session : Session := session 0 true.

End Iso8601.

(** ** The streaming job, [spark-apps/spark_streaming.py] *)

Module Streaming.

Definition field (n : string) (t : DataType) : StructField :=
  {| name := n; dataType := t; nullable := true |}.

Definition ecommerce_base_schema : list StructField :=
  [ field "event_id" StringType;
    field "event_type" StringType;
    field "user_id" IntegerType;
    field "product_id" StringType;
    field "session_id" StringType;
    field "location" StringType;
    field "device" StringType;
    field "timestamp" StringType;
    field "ip_address" StringType;
    field "category" StringType;
    field "quantity" IntegerType;
    field "price" DoubleType;
    field "order_id" StringType;
    field "amount" DoubleType ].

(** One row of [parsed_df]: the record parsed against the base schema, the
    [timestamp] column cast in place, and [event_date] appended. *)
Definition parsed_row (env : Session) (value : payload) : row :=
  withColumn "event_date" (fun r => date_format env (col "timestamp" r))
    (withColumn "timestamp" (fun r => to_timestamp env (col "timestamp" r))
       (from_json env ecommerce_base_schema value)).

(** The cell [from_json] gives the base-schema field [n] of type [t]. *)
Definition base_cell (env : Session) (value : payload) (n : string)
    (t : DataType) : cell :=
  json_cell env ecommerce_base_schema value (field n t).

Definition parsed_df (env : Session) (df : list payload) : list row :=
  map (parsed_row env) df.

Definition required_fields : list string :=
  ["event_id"; "event_type"; "user_id"; "timestamp"]%string.

(** The filter of [invalid_df]. *)
Definition invalid_row (r : row) : bool :=
  isNull (col "event_id" r) || isNull (col "event_type" r).

(** The rows the job writes to the console sink [invalid_records_console]. *)
Definition invalid_df (env : Session) (df : list payload) : list row :=
  List.filter invalid_row (parsed_df env df).

(** Column names and types of [CREATE TABLE local.db.ecommerce_events]. *)
Inductive SqlType : Type := STRING | INT | DOUBLE | TIMESTAMP.

Definition table_schema : list (string * SqlType) :=
  [ ("event_id", STRING); ("event_type", STRING); ("user_id", INT);
    ("product_id", STRING); ("session_id", STRING); ("location", STRING);
    ("device", STRING); ("timestamp", TIMESTAMP); ("event_date", STRING);
    ("ip_address", STRING); ("category", STRING); ("quantity", INT);
    ("price", DOUBLE); ("order_id", STRING); ("amount", DOUBLE) ]%string.

(** [PARTITIONED BY (event_type, event_date)]. *)
Definition partition_columns : list string := ["event_type"; "event_date"]%string.

(** The final [select], "reorder columns to match Iceberg table schema". *)
Definition final_columns : list string :=
  [ "event_id"; "event_type"; "user_id"; "product_id"; "session_id";
    "location"; "device"; "timestamp"; "event_date"; "ip_address";
    "category"; "quantity"; "price"; "order_id"; "amount" ]%string.

(** [cleaned_df] as the writer receives it: the required-field filter, then
    the final column selection.  These are the rows appended to the table. *)
Definition cleaned_df (env : Session) (df : list payload) : list row :=
  map (select final_columns) (dropna required_fields (parsed_df env df)).

(** Whether a record yields a table row. *)
Definition accepted (env : Session) (value : payload) : bool :=
  no_nulls required_fields (parsed_row env value).

(** The table row of a record. *)
Definition table_row (env : Session) (value : payload) : row :=
  select final_columns (parsed_row env value).

(** The partition a row is stored under: its values in [partition_columns]. *)
Definition partitionKey (r : row) : list cell :=
  map (fun n => col n r) partition_columns.

(** A field the payload does not give a value for: the value is not an
    object, or the key is missing, or its value is null. *)
Definition absent (value : payload) (n : string) : Prop :=
  match value with
  | None => True
  | Some o => o !! n = None ∨ o !! n = Some JNull
  end.

(** Whether the value of a payload field can be read back from a row. *)
Definition preserved_in (r : row) (k : string) (v : jvalue) : Prop :=
  In k (columns r) ∧ col k r = CString (json_text v).

End Streaming.

(** The block around the streaming writer (the last statement of the job):
    [try: query = ...toTable(...); log; log; awaitAnyTermination()
     except Exception as e: log error; raise
     finally: spark.stop()].
    A failed commit of a micro-batch terminates the query with an exception,
    which [awaitAnyTermination] raises. *)

Module Driver.

Inductive Outcome : Type := Returned | Raised (e : string).

(** What one start of the writer would do: [toTable] starts the query or
    raises, [awaitAnyTermination] returns or raises. *)
Record Run : Type := { toTable : Outcome; awaitAnyTermination : Outcome }.

(** The engine, as the job sees it: the outcome of the [k]-th start of the
    writer, for every [k] (a transient fault fails one start and not the
    next). *)
Definition Engine : Type := nat -> Run.

Inductive Action : Type :=
  | StartWriter (attempt : nat)
  | LogInfo
  | Await
  | LogError (e : string)
  | SparkStop.

(** The actions of the block, in order, and how it ends: [Raised e] is the
    exception leaving the script. *)
Definition run_writer (engine : Engine) : list Action * Outcome :=
  match toTable (engine 0%nat) with
  | Raised e => ([StartWriter 0; LogError e; SparkStop], Raised e)
  | Returned =>
      match awaitAnyTermination (engine 0%nat) with
      | Raised e =>
          ([StartWriter 0; LogInfo; LogInfo; Await; LogError e; SparkStop], Raised e)
      | Returned =>
          ([StartWriter 0; LogInfo; LogInfo; Await; SparkStop], Returned)
      end
  end.

Definition is_start (a : Action) : bool :=
  match a with StartWriter _ => true | _ => false end.

(** How many times the block starts the writer. *)
Definition attempts (engine : Engine) : nat :=
  length (List.filter is_start (run_writer engine).1).

(** A start that goes through: the query starts and ends without error. *)
Definition succeeds (r : Run) : Prop :=
  toTable r = Returned ∧ awaitAnyTermination r = Returned.

(** The exception a start ends with, if any. *)
Definition failure (r : Run) : option string :=
  match toTable r, awaitAnyTermination r with
  | Raised e, _ => Some e
  | Returned, Raised e => Some e
  | Returned, Returned => None
  end.

(** Retrying up to a cap, as far as the outcome shows it: when one of the
    first [cap] starts would go through, the block does not end with an
    exception. *)
Definition retried_up_to (cap : nat) (engine : Engine) : Prop :=
  ∀ k, (k < cap)%nat → succeeds (engine k) → (run_writer engine).2 = Returned.

End Driver.

(** ** The ingress, [api/main.py] *)

Module Api.

(** The field validators of the model library: what a [str] and an [int]
    field accept, and as which value.  A JSON null is refused by both kinds
    of field whatever the validators say (no field is [Optional]). *)
Record Validators : Type :=
  { str_validator : jvalue -> option string;
    int_validator : jvalue -> option Z }.

Record EventModel : Type :=
  { event_id : string;
    event_type : string;
    user_id : Z;
    session_id : string;
    location : string;
    device : string;
    timestamp : string;
    extra : gmap string jvalue }.

(** The declared fields of [EventModel], in declaration order. *)
Definition declared_fields : list string :=
  ["event_id"; "event_type"; "user_id"; "session_id"; "location"; "device";
   "timestamp"]%string.

Definition str_field (V : Validators) (o : gmap string jvalue) (n : string)
    : option string :=
  match o !! n with
  | None | Some JNull => None
  | Some v => str_validator V v
  end.

Definition int_field (V : Validators) (o : gmap string jvalue) (n : string)
    : option Z :=
  match o !! n with
  | None | Some JNull => None
  | Some v => int_validator V v
  end.

(** Whether a declared field of the body fails validation. *)
Definition field_fails (V : Validators) (o : gmap string jvalue) (n : string)
    : bool :=
  if String.eqb n "user_id" then bool_decide (int_field V o n = None)
  else bool_decide (str_field V o n = None).

(** Construction of the model from the request body: every declared field
    must be present and valid; [extra = 'allow'] keeps all other keys. *)
Definition parse_obj (V : Validators) (o : gmap string jvalue)
    : EventModel + list string :=
  match str_field V o "event_id", str_field V o "event_type",
        int_field V o "user_id", str_field V o "session_id",
        str_field V o "location", str_field V o "device",
        str_field V o "timestamp" with
  | Some a, Some b, Some c, Some d, Some e, Some f, Some g =>
      inl {| event_id := a; event_type := b; user_id := c; session_id := d;
             location := e; device := f; timestamp := g;
             extra := filter (fun kv => kv.1 ∉ declared_fields) o |}
  | _, _, _, _, _, _, _ => inr (List.filter (field_fails V o) declared_fields)
  end.

(** [event.dict()]: the declared fields and the extra ones. *)
Definition dict (ev : EventModel) : gmap string jvalue :=
  <["event_id" := JStr (event_id ev)]>
  (<["event_type" := JStr (event_type ev)]>
  (<["user_id" := JInt (user_id ev)]>
  (<["session_id" := JStr (session_id ev)]>
  (<["location" := JStr (location ev)]>
  (<["device" := JStr (device ev)]>
  (<["timestamp" := JStr (timestamp ev)]> (extra ev))))))).

(** A message handed to the producer; [value] is the decoding of
    [json.dumps(event_dict)]. *)
Record Message : Type :=
  { topic : string; key : string; value : gmap string jvalue }.

Inductive Response : Type :=
  | Http200 (status : string) (event : gmap string jvalue)
  | Http422 (invalid : list string)
  | Http500.

(** The handler body.  [sent] are the messages produced so far; [raises]
    tells whether [producer.produce] raises for a message in that state. *)
Definition send_event (raises : list Message -> Message -> bool)
    (sent : list Message) (event : EventModel) : Response * list Message :=
  let event_dict := dict event in
  let msg := {| topic := "ecommerce_events";
                key := session_id event;
                value := event_dict |} in
  if raises sent msg then (Http500, sent)
  else (Http200 "Event sent" event_dict, sent ++ [msg]).

(** [POST /events]: the framework builds the model from the body and calls
    the handler only when that succeeds. *)
Definition post_events (V : Validators)
    (raises : list Message -> Message -> bool)
    (sent : list Message) (body : payload) : Response * list Message :=
  match body with
  | None => (Http422 ["body"%string], sent)
  | Some o =>
      match parse_obj V o with
      | inl event => send_event raises sent event
      | inr invalid => (Http422 invalid, sent)
      end
  end.

(** Validators that accept exactly a string token for [str] and an integer
    token for [int]. *)
Definition exact_validators : Validators :=
  {| str_validator := fun v => match v with JStr s => Some s | _ => None end;
     int_validator := fun v => match v with JInt n => Some n | _ => None end |}.

End Api.

(** ** The commit protocol the job delegates to the engine

    The job only configures its writer ([writeStream ... format("iceberg")
    ... option("checkpointLocation", checkpoint_location) ... toTable]);
    the consumer and the commit coordinator that the specification
    describes (sections 3, 4.4, 4.5 and 6) are not code of the repository.
    This module follows the specification's words for them.  Validation of
    a record is the job's own: [Streaming.accepted] and
    [Streaming.table_row]. *)

Module Coordinator.

Import Streaming.

(** Modelled from the spec: the Raw Record of section 3, a payload with its
    broker-assigned (partition, offset) position. *)
Record RawRecord : Type :=
  { rec_partition : nat; rec_offset : nat; rec_value : payload }.

(** Modelled from the spec: an immutable segment of rows stored under one
    Partition Key (section 4.4, step 1). *)
Record Segment : Type := { seg_key : list cell; seg_rows : list row }.

(** Modelled from the spec: what a reader can see at one time, the table's
    segments and the Commit Checkpoint's highest committed offset per broker
    partition (section 3); a partition without an entry has no commit yet. *)
Record Snapshot : Type :=
  { segments : list Segment; watermark : gmap nat nat }.

(** Modelled from the spec: the storage collaborator of section 6.  [visible]
    is the published snapshot; [staged] is the snapshot a transaction in
    progress is building, which no reader sees. *)
Record Store : Type := { visible : Snapshot; staged : option Snapshot }.

(** Modelled from the spec: the Micro-batch of section 3, the Events of one
    broker partition with the offsets they come from. *)
Record Batch : Type :=
  { batch_source : nat; batch_events : list (nat * row) }.

(** Modelled from the spec: the state of the pipeline, the store and the
    Dead-letter Sink's append-only entries. *)
Record State : Type := { store : Store; dead_letters : list RawRecord }.

(** Modelled from the spec: the empty table with no checkpoint, the state
    before the first commit. *)
Definition empty_snapshot : Snapshot := {| segments := []; watermark := ∅ |}.

(** Modelled from the spec: the pipeline before it has consumed anything. *)
Definition initial : State :=
  {| store := {| visible := empty_snapshot; staged := None |};
     dead_letters := [] |}.

(** Modelled from the spec: the batch's maximum offset (section 4.4, step 2),
    [None] for a batch without Events. *)
Definition max_offset (b : Batch) : option nat :=
  match batch_events b with
  | [] => None
  | _ => Some (max_list (map fst (batch_events b)))
  end.

(** Modelled from the spec: a row joins the segment of its Partition Key, in
    consumption order (section 4.3), or opens that key's segment. *)
Fixpoint add_to_segments (r : row) (segs : list Segment) : list Segment :=
  match segs with
  | [] => [{| seg_key := partitionKey r; seg_rows := [r] |}]
  | g :: segs' =>
      if bool_decide (seg_key g = partitionKey r)
      then {| seg_key := seg_key g; seg_rows := seg_rows g ++ [r] |} :: segs'
      else g :: add_to_segments r segs'
  end.

(** Modelled from the spec: the segments of a batch, one per Partition Key. *)
Definition batch_segments (b : Batch) : list Segment :=
  fold_left (fun segs e => add_to_segments e.2 segs) (batch_events b) [].

(** Modelled from the spec: a write inside the transaction touches the
    staged snapshot only. *)
Definition on_staged (f : Snapshot -> Snapshot) (s : Store) : Store :=
  {| visible := visible s; staged := f <$> staged s |}.

(** Modelled from the spec: opening the transaction of section 6; the staged
    snapshot starts as a copy of the visible one. *)
Definition begin (s : Store) : Store :=
  {| visible := visible s; staged := Some (visible s) |}.

(** Modelled from the spec: [appendSegment(partitionKey, rows)], section 6. *)
Definition appendSegment (g : Segment) : Store -> Store :=
  on_staged (fun n => {| segments := segments n ++ [g];
                         watermark := watermark n |}).

(** Modelled from the spec: [updateWatermark(partitionBroker, offset)]. *)
Definition updateWatermark (p off : nat) : Store -> Store :=
  on_staged (fun n => {| segments := segments n;
                         watermark := <[p := off]> (watermark n) |}).

(** Modelled from the spec: step 3 of section 4.4, the staged snapshot
    becomes the visible one. *)
Definition publish (s : Store) : Store :=
  match staged s with
  | Some n => {| visible := n; staged := None |}
  | None => s
  end.

(** Modelled from the spec: what a failed attempt leaves, "the attempt is
    discarded" (section 4.4). *)
Definition discard (s : Store) : Store :=
  {| visible := visible s; staged := None |}.

(** Modelled from the spec: [readWatermark()], section 6. *)
Definition readWatermark (s : Store) : gmap nat nat := watermark (visible s).

(** Modelled from the spec: the writes of one commit between opening the
    transaction and publishing it, the appends of step 1 and then the
    watermark update of step 2 (section 4.4). *)
Definition staging_steps (b : Batch) : list (Store -> Store) :=
  map appendSegment (batch_segments b)
  ++ match max_offset b with
     | Some m => [updateWatermark (batch_source b) m]
     | None => []
     end.

(** Modelled from the spec: the same writes, as functions on the staged
    snapshot. *)
Definition staged_writes (b : Batch) : list (Snapshot -> Snapshot) :=
  map (fun g n => {| segments := segments n ++ [g]; watermark := watermark n |})
      (batch_segments b)
  ++ match max_offset b with
     | Some m => [fun n => {| segments := segments n;
                              watermark := <[batch_source b := m]> (watermark n) |}]
     | None => []
     end.

(** Modelled from the spec: the writes of a transaction happen in order. *)
Definition run_steps (steps : list (Store -> Store)) (s : Store) : Store :=
  fold_left (fun s f => f s) steps s.

(** Modelled from the spec: the store a crash leaves when it strikes after
    [k] of the staging writes, before any recovery. *)
Definition crashed_at (k : nat) (b : Batch) (s : Store) : Store :=
  run_steps (take k (staging_steps b)) (begin s).

(** Modelled from the spec: [commit(batch)] of section 4.4 with failure
    injection.  [crash = Some k] fails the attempt after [k] staging writes
    and discards it; [crash = None] runs it to the end.  The boolean is the
    CommitAck. *)
Definition commit (crash : option nat) (b : Batch) (s : Store)
    : Store * bool :=
  match crash with
  | Some k => (discard (crashed_at k b s), false)
  | None => (publish (run_steps (staging_steps b) (begin s)), true)
  end.

(** Modelled from the spec: the snapshot a successful commit of [b]
    publishes over [n]: the batch's segments and the watermark together. *)
Definition committed_snapshot (b : Batch) (n : Snapshot) : Snapshot :=
  {| segments := segments n ++ batch_segments b;
     watermark := match max_offset b with
                  | Some m => <[batch_source b := m]> (watermark n)
                  | None => watermark n
                  end |}.

(** Modelled from the spec: whether the checkpoint covers an offset, "a
    record whose offset is <= watermark" (section 4.4). *)
Definition covered (wm : gmap nat nat) (p off : nat) : bool :=
  match wm !! p with
  | Some w => bool_decide (off ≤ w)%nat
  | None => false
  end.

(** Modelled from the spec: the resume offset read at startup (section 4.5),
    one past the watermark, or the earliest offset without a checkpoint. *)
Definition resume_offset (s : Store) (p : nat) : nat :=
  match readWatermark s !! p with
  | Some w => S w
  | None => 0%nat
  end.

(** Modelled from the spec: the records a poll delivers that the checkpoint
    does not cover; the others are skipped before validation. *)
Definition fresh (s : Store) (rs : list RawRecord) : list RawRecord :=
  List.filter
    (fun r => negb (covered (readWatermark s) (rec_partition r) (rec_offset r)))
    rs.

(** Modelled from the spec: [validate(raw)] of section 4.1 succeeds; the
    check itself is the job's required-field filter. *)
Definition valid (env : Session) (r : RawRecord) : bool :=
  accepted env (rec_value r).

(** Modelled from the spec: the batch of the valid records of a poll. *)
Definition assemble (env : Session) (p : nat) (rs : list RawRecord) : Batch :=
  {| batch_source := p;
     batch_events :=
       map (fun r => (rec_offset r, table_row env (rec_value r)))
           (List.filter (valid env) rs) |}.

(** Modelled from the spec: the consumer on one poll of partition [p]
    (section 4.5): skip what is covered, validate the rest, dead-letter the
    invalid records, commit the valid ones as one batch. *)
Definition consume (env : Session) (crash : option nat) (p : nat)
    (rs : list RawRecord) (st : State) : State :=
  let new := fresh (store st) rs in
  {| store := (commit crash (assemble env p new) (store st)).1;
     dead_letters :=
       dead_letters st ++ List.filter (fun r => negb (valid env r)) new |}.

(** Modelled from the spec: whether a record is of partition [p] with its
    offset in [[lo, hi)]. *)
Definition in_range (p lo hi : nat) (r : RawRecord) : bool :=
  bool_decide (rec_partition r = p)
  && bool_decide (lo ≤ rec_offset r)%nat
  && bool_decide (rec_offset r < hi)%nat.

(** Modelled from the spec: the broker's log, and a (re)delivery from it: the
    records of partition [p] with offsets in [[lo, hi)], in log order. *)
Definition fetch (log : list RawRecord) (p lo hi : nat) : list RawRecord :=
  List.filter (in_range p lo hi) log.

(** Modelled from the spec: a restart keeps the store and nothing else; an
    interrupted transaction is gone. *)
Definition restart (st : State) : State :=
  {| store := discard (store st); dead_letters := dead_letters st |}.

(** Modelled from the spec: one move of the pipeline under at-least-once
    delivery.  The broker may deliver any range that starts at or before the
    consumer's resume offset (a replay when it starts before), the commit
    may crash at any point, and the consumer may restart at any time. *)
Inductive step (env : Session) (log : list RawRecord) : State -> State -> Prop :=
  | step_poll (p lo hi : nat) (crash : option nat) (st : State) :
      (lo ≤ resume_offset (store st) p)%nat ->
      step env log st (consume env crash p (fetch log p lo hi) st)
  | step_restart (st : State) :
      step env log st (restart st).

(** Modelled from the spec: the states the pipeline can be in. *)
Definition reachable (env : Session) (log : list RawRecord) (st : State) : Prop :=
  rtc (step env log) initial st.

(** Modelled from the spec: the rows a reader of the table sees. *)
Definition table_rows (st : State) : list row :=
  concat (map seg_rows (segments (visible (store st)))).

(** Modelled from the spec: whether the checkpoint covers a record. *)
Definition committed (st : State) (r : RawRecord) : bool :=
  covered (readWatermark (store st)) (rec_partition r) (rec_offset r).

(** Modelled from the spec: the Events of the log that the checkpoint
    covers, one per valid record, in log order. *)
Definition committed_events (env : Session) (log : list RawRecord)
    (st : State) : list row :=
  map (fun r => table_row env (rec_value r))
      (List.filter (fun r => valid env r && committed st r) log).

(** Modelled from the spec: the records of a log range that a poll commits,
    those in the range that the checkpoint does not cover and that are
    valid. *)
Definition polled (env : Session) (log : list RawRecord) (st : State)
    (p lo hi : nat) : list RawRecord :=
  List.filter
    (fun r => in_range p lo hi r && (negb (committed st r) && valid env r))
    log.

(** Modelled from the spec: convergence, every valid record of the log is
    covered by the checkpoint. *)
Definition converged (env : Session) (log : list RawRecord) (st : State) : Prop :=
  ∀ r, In r log → valid env r = true → committed st r = true.

(** Modelled from the spec: the order on watermarks; no checkpoint is below
    every offset. *)
Definition wm_le (a b : option nat) : Prop :=
  match a, b with
  | None, _ => True
  | Some x, Some y => (x ≤ y)%nat
  | Some _, None => False
  end.

End Coordinator.

Import Streaming.

(** ** Types of the table columns *)

Module Typing.

Import Streaming.

Definition int32 (n : Z) : bool := (- 2147483648 <=? n) && (n <=? 2147483647).

(** Whether a cell is a value of a column type of the table; every column is
    nullable. *)
Definition has_type (t : SqlType) (c : cell) : bool :=
  match c, t with
  | CNull, _ => true
  | CString _, STRING => true
  | CInt n, INT => int32 n
  | CDouble _, DOUBLE => true
  | CTimestamp _, TIMESTAMP => true
  | _, _ => false
  end.

(** A row that [CREATE TABLE local.db.ecommerce_events] can hold: the
    table's columns in order, each cell of its column's type. *)
Definition fits_table (r : row) : Prop :=
  Forall2 (fun nc nt => nc.1 = nt.1 ∧ has_type nt.2 nc.2 = true) r table_schema.

(** The columns of the table that are neither required nor derived. *)
Definition optional_columns : list string :=
  ["product_id"; "session_id"; "location"; "device"; "ip_address";
   "category"; "quantity"; "price"; "order_id"; "amount"]%string.

End Typing.

(** ** The job from its first statement, [spark-apps/spark_streaming.py]

    The statements of the script in order, with what each external call does
    given by a [World].  Setting the log level and the two [spark.conf.set]
    are taken not to raise. *)

Module Job.

Import Driver.

Definition warehouse_path (bucket : string) : string :=
  "s3a://" +:+ bucket +:+ "/iceberg-warehouse".

Definition checkpoint_location (bucket : string) : string :=
  "s3a://" +:+ bucket +:+ "/checkpoint/ecommerce-stream".

Definition table_location (bucket : string) : string :=
  warehouse_path bucket +:+ "/db/ecommerce_events".

Record World : Type :=
  { ICEBERG_S3_BUCKET : option string;
    getOrCreate : Outcome;
    create_database : Outcome;
    load : Outcome;
    start_invalid_query : Outcome;
    create_table : Outcome;
    writer : Engine }.

Inductive Step : Type :=
  | CreateSession (warehouse : string)
  | SetLogLevel
  | CreateDatabase
  | LoadKafka
  | StartInvalidQuery
  | CreateTable (location : string)
  | EnableSchemaEvolution
  | Do (a : Action).

Definition value_error : string :=
  "❌ Environment variable 'ICEBERG_S3_BUCKET' is not set. Please define it in your .env file.".

(** The steps after the bucket name is known. *)
Definition run (bucket : string) (w : World) : list Step * Outcome :=
  let t0 := [CreateSession (warehouse_path bucket)] in
  match getOrCreate w with
  | Raised e => (t0, Raised e)
  | Returned =>
  let t1 := t0 ++ [SetLogLevel; CreateDatabase] in
  match create_database w with
  | Raised e => (t1 ++ [Do (LogError e); Do SparkStop], Raised e)
  | Returned =>
  let t2 := t1 ++ [Do LogInfo; Do LogInfo; LoadKafka] in
  match load w with
  | Raised e => (t2 ++ [Do (LogError e); Do SparkStop], Raised e)
  | Returned =>
  let t3 := t2 ++ [Do LogInfo; StartInvalidQuery] in
  match start_invalid_query w with
  | Raised e => (t3, Raised e)
  | Returned =>
  let t4 := t3 ++ [Do LogInfo; CreateTable (table_location bucket)] in
  match create_table w with
  | Raised e => (t4 ++ [Do (LogError e); Do SparkStop], Raised e)
  | Returned =>
  let t5 := t4 ++ [Do LogInfo; Do LogInfo; EnableSchemaEvolution; Do LogInfo] in
  (t5 ++ map Do (run_writer (writer w)).1, (run_writer (writer w)).2)
  end end end end end.

(** The script: [if not iceberg_s3_bucket: raise ValueError(...)], then the
    rest. *)
Definition main (w : World) : list Step * Outcome :=
  match ICEBERG_S3_BUCKET w with
  | None => ([], Raised value_error)
  | Some bucket =>
      if String.eqb bucket "" then ([], Raised value_error) else run bucket w
  end.

Definition is_stop (s : Step) : bool :=
  match s with Do SparkStop => true | _ => false end.

(** The exception of the first set-up call that raises, if any. *)
Definition setup_failure (w : World) : option string :=
  match getOrCreate w, create_database w, load w, start_invalid_query w,
        create_table w with
  | Raised e, _, _, _, _ => Some e
  | Returned, Raised e, _, _, _ => Some e
  | Returned, Returned, Raised e, _, _ => Some e
  | Returned, Returned, Returned, Raised e, _ => Some e
  | Returned, Returned, Returned, Returned, Raised e => Some e
  | Returned, Returned, Returned, Returned, Returned => None
  end.

(** Whether a bucket name is given. *)
Definition bucket_given (w : World) : Prop :=
  ∃ bucket, ICEBERG_S3_BUCKET w = Some bucket ∧ bucket ≠ ""%string.

Definition is_writer_start (s : Step) : bool :=
  match s with Do (StartWriter _) => true | _ => false end.

End Job.

(** ** The event generator, [event_generator.py]

    [generate_event] with its random draws made explicit: one field of
    [Draws] per call of [random] or [faker]. *)

Module Generator.

Definition event_types : list string :=
  ["login"; "product_view"; "add_to_cart"; "checkout"; "payment_success";
   "payment_failure"]%string.

(** [random.choice(l)]: the draw is an index, taken modulo the length. *)
Definition choice (l : list string) (i : nat) : string :=
  nth (i mod length l) l ""%string.

(** [fake.random_int(min=lo, max=hi)]: the draw is folded into the range. *)
Definition random_int (lo hi : Z) (z : Z) : Z := lo + z mod (hi - lo + 1).

Record Draws : Type :=
  { event_type_ix : nat;
    event_uuid : string;
    user_z : Z;
    iso8601 : string;
    session_uuid : string;
    city : string;
    device_ix : nat;
    ipv4 : string;
    login_method_ix : nat;
    user_agent : string;
    success : bool;
    product_z : Z;
    category_ix : nat;
    word : string;
    referrer_ix : nat;
    duration_z : Z;
    quantity_z : Z;
    price_lit : string;
    cart_uuid : string;
    wishlist : bool;
    total_items_z : Z;
    total_value_lit : string;
    street_address : string;
    shipping_city : string;
    state_abbr : string;
    zipcode : string;
    payment_method_ix : nat;
    order_uuid : string;
    amount_lit : string;
    transaction_uuid : string;
    failure_reason_ix : nat }.

(** [d.update(pairs)]. *)
Definition update (m : gmap string jvalue) (kvs : list (string * jvalue))
    : gmap string jvalue :=
  fold_left (fun m kv => <[kv.1 := kv.2]> m) kvs m.

Definition quote : string := String (ascii_of_nat 34) EmptyString.

Definition member (k v : string) : string :=
  quote +:+ k +:+ quote +:+ ": " +:+ quote +:+ v +:+ quote.

(** The text of the nested [shipping_address] object (the drawn strings are
    taken to need no escaping). *)
Definition shipping_address (d : Draws) : string :=
  "{" +:+ member "street" (street_address d) +:+ ", "
  +:+ member "city" (shipping_city d) +:+ ", "
  +:+ member "state" (state_abbr d) +:+ ", "
  +:+ member "zip" (zipcode d) +:+ "}".

Definition payment_methods : list string :=
  ["credit_card"; "paypal"; "apple_pay"]%string.

Definition event_type_of (d : Draws) : string :=
  choice event_types (event_type_ix d).

Definition base (d : Draws) : gmap string jvalue :=
  update ∅
    [ ("event_id", JStr (event_uuid d));
      ("event_type", JStr (event_type_of d));
      ("user_id", JInt (random_int 1000 999999 (user_z d)));
      ("timestamp", JStr (iso8601 d));
      ("session_id", JStr (session_uuid d));
      ("location", JStr (city d));
      ("device", JStr (choice ["desktop"; "mobile"; "tablet"] (device_ix d))) ]%string.

Definition product_id (d : Draws) : string :=
  "P" +:+ pretty (random_int 1000 9999 (product_z d)).

Definition generate_event (d : Draws) : gmap string jvalue :=
  let event_type := event_type_of d in
  if String.eqb event_type "login" then
    update (base d)
      [ ("ip_address", JStr (ipv4 d));
        ("login_method",
         JStr (choice ["email_password"; "google"; "facebook"] (login_method_ix d)));
        ("user_agent", JStr (user_agent d));
        ("success", JBool (success d)) ]%string
  else if String.eqb event_type "product_view" then
    update (base d)
      [ ("product_id", JStr (product_id d));
        ("category",
         JStr (choice ["electronics"; "clothing"; "books"; "home"] (category_ix d)));
        ("search_query", JStr (word d));
        ("referrer",
         JStr (choice ["homepage"; "search"; "email"; "ads"] (referrer_ix d)));
        ("duration_seconds", JInt (random_int 10 300 (duration_z d))) ]%string
  else if String.eqb event_type "add_to_cart" then
    update (base d)
      [ ("product_id", JStr (product_id d));
        ("quantity", JInt (random_int 1 5 (quantity_z d)));
        ("price", JFloat (price_lit d));
        ("cart_id", JStr (cart_uuid d));
        ("was_wishlist_item", JBool (wishlist d)) ]%string
  else if String.eqb event_type "checkout" then
    update (base d)
      [ ("cart_id", JStr (cart_uuid d));
        ("total_items", JInt (random_int 1 10 (total_items_z d)));
        ("total_value", JFloat (total_value_lit d));
        ("shipping_address", JNested (shipping_address d));
        ("payment_method_selected",
         JStr (choice payment_methods (payment_method_ix d))) ]%string
  else if bool_decide (event_type ∈ ["payment_success"; "payment_failure"]%string) then
    let paid :=
      update (base d)
        [ ("order_id", JStr (order_uuid d));
          ("cart_id", JStr (cart_uuid d));
          ("amount", JFloat (amount_lit d));
          ("payment_method", JStr (choice payment_methods (payment_method_ix d)));
          ("transaction_id", JStr (transaction_uuid d)) ]%string in
    if String.eqb event_type "payment_failure" then
      <["failure_reason" :=
          JStr (choice ["insufficient_funds"; "invalid_card"; "network_error"]
                  (failure_reason_ix d))]> paid
    else paid
  else base d.

(** The type-specific data of the generator that has a column in the table:
    (event type, column). *)
Definition stored_details : list (string * string) :=
  [ ("login", "ip_address");
    ("product_view", "product_id"); ("product_view", "category");
    ("add_to_cart", "product_id"); ("add_to_cart", "quantity");
    ("add_to_cart", "price");
    ("payment_success", "order_id"); ("payment_success", "amount");
    ("payment_failure", "order_id"); ("payment_failure", "amount") ]%string.

End Generator.

(** ** Sample inputs *)

Module Examples.

Definition event (id ty : string) (uid : Z) (ts : string) : gmap string jvalue :=
  <["event_id" := JStr id]> (<["event_type" := JStr ty]>
  (<["user_id" := JInt uid]> (<["timestamp" := JStr ts]> ∅))).

(** The login event of the specification's scenarios. *)
Definition login_e1 : gmap string jvalue :=
  event "e1" "login" 1 "2024-01-01T00:00:00Z".

(** The same event with a field the base schema does not have. *)
Definition with_cart : gmap string jvalue :=
  <["cart_id" := JStr "c9"]> login_e1.

Definition no_user : gmap string jvalue := delete "user_id" login_e1.

Definition no_type : gmap string jvalue := delete "event_type" login_e1.

Definition bad_time : gmap string jvalue := event "e2" "login" 2 "not-a-date".

(** Two checkouts on the same UTC day, one hour apart. *)
Definition checkout_2230 : gmap string jvalue :=
  event "e3" "checkout" 3 "2024-01-01T22:30:00Z".

Definition checkout_2330 : gmap string jvalue :=
  event "e4" "checkout" 4 "2024-01-01T23:30:00Z".

(** An engine whose first commit fails and whose later starts all go
    through. *)
Definition flaky : Driver.Engine :=
  fun k =>
    match k with
    | O => {| Driver.toTable := Driver.Returned;
              Driver.awaitAnyTermination := Driver.Raised "commit failed" |}
    | S _ => {| Driver.toTable := Driver.Returned;
                Driver.awaitAnyTermination := Driver.Returned |}
    end.

(** A request body with the seven declared fields and one more. *)
Definition request : gmap string jvalue :=
  <["session_id" := JStr "s1"]> (<["location" := JStr "Oslo"]>
  (<["device" := JStr "mobile"]> with_cart)).

(** A producer that never raises. *)
Definition never (sent : list Api.Message) (m : Api.Message) : bool := false.

(** A broker log: two partitions, with one invalid record in the first. *)
Definition broker_log : list Coordinator.RawRecord :=
  [ Coordinator.Build_RawRecord 0 10 (Some login_e1);
    Coordinator.Build_RawRecord 0 11 (Some no_user);
    Coordinator.Build_RawRecord 0 12 (Some checkout_2230);
    Coordinator.Build_RawRecord 1 0 (Some checkout_2330) ].

(** A run over that log: a first commit of offsets up to 10 crashes after
    one staging write and the consumer restarts; offsets up to 12 are then
    delivered from the start and committed; the broker replays them from
    offset 5; the other partition is consumed. *)
Definition run_crashed : Coordinator.State :=
  Coordinator.consume Iso8601.utc_session (Some 1%nat) 0
    (Coordinator.fetch broker_log 0 0 11) Coordinator.initial.

Definition run_restarted : Coordinator.State := Coordinator.restart run_crashed.

Definition run_committed : Coordinator.State :=
  Coordinator.consume Iso8601.utc_session None 0
    (Coordinator.fetch broker_log 0 0 13) run_restarted.

Definition run_replayed : Coordinator.State :=
  Coordinator.consume Iso8601.utc_session None 0
    (Coordinator.fetch broker_log 0 5 13) run_committed.

Definition run_final : Coordinator.State :=
  Coordinator.consume Iso8601.utc_session None 1
    (Coordinator.fetch broker_log 1 0 1) run_replayed.

(** Draws that make the generator produce a checkout. *)
Definition checkout_draws : Generator.Draws :=
  {| Generator.event_type_ix := 3;
     Generator.event_uuid := "e9";
     Generator.user_z := 41;
     Generator.iso8601 := "2024-03-05T10:20:30";
     Generator.session_uuid := "s9";
     Generator.city := "Lagos";
     Generator.device_ix := 1;
     Generator.ipv4 := "10.0.0.1";
     Generator.login_method_ix := 0;
     Generator.user_agent := "agent";
     Generator.success := true;
     Generator.product_z := 7;
     Generator.category_ix := 2;
     Generator.word := "lamp";
     Generator.referrer_ix := 0;
     Generator.duration_z := 12;
     Generator.quantity_z := 2;
     Generator.price_lit := "19.99";
     Generator.cart_uuid := "c9";
     Generator.wishlist := false;
     Generator.total_items_z := 3;
     Generator.total_value_lit := "120.5";
     Generator.street_address := "1 Main St";
     Generator.shipping_city := "Lagos";
     Generator.state_abbr := "LA";
     Generator.zipcode := "10001";
     Generator.payment_method_ix := 1;
     Generator.order_uuid := "o9";
     Generator.amount_lit := "120.5";
     Generator.transaction_uuid := "t9";
     Generator.failure_reason_ix := 0 |}.

(** A session one hour east of UTC. *)
Definition plus_one_hour : Session := Iso8601.session 3600 true.

End Examples.

(** * Properties *)

(** ** The streaming job *)

Section StreamingFacts.

Variable env : Session.

Lemma parsed_row_eq (value : payload) :
  parsed_row env value =
  [ ("event_id", base_cell env value "event_id" StringType);
    ("event_type", base_cell env value "event_type" StringType);
    ("user_id", base_cell env value "user_id" IntegerType);
    ("product_id", base_cell env value "product_id" StringType);
    ("session_id", base_cell env value "session_id" StringType);
    ("location", base_cell env value "location" StringType);
    ("device", base_cell env value "device" StringType);
    ("timestamp", to_timestamp env (base_cell env value "timestamp" StringType));
    ("ip_address", base_cell env value "ip_address" StringType);
    ("category", base_cell env value "category" StringType);
    ("quantity", base_cell env value "quantity" IntegerType);
    ("price", base_cell env value "price" DoubleType);
    ("order_id", base_cell env value "order_id" StringType);
    ("amount", base_cell env value "amount" DoubleType);
    ("event_date",
     date_format env (to_timestamp env (base_cell env value "timestamp" StringType))) ]%string.
Proof. reflexivity. Qed.

(** Every column the job names exists in the rows of [parsed_df]. *)
Lemma parsed_row_columns (value : payload) :
  columns (parsed_row env value)
  = map name ecommerce_base_schema ++ ["event_date"%string]
  ∧ incl final_columns (columns (parsed_row env value))
  ∧ incl required_fields (columns (parsed_row env value)).
Proof.
  rewrite parsed_row_eq. split; [reflexivity|].
  split; intros n Hn; simpl in Hn |- *; tauto.
Qed.

Lemma table_row_columns (value : payload) :
  columns (table_row env value) = final_columns.
Proof. reflexivity. Qed.

Lemma accepted_eq (value : payload) :
  accepted env value =
  negb (isNull (base_cell env value "event_id" StringType))
  && (negb (isNull (base_cell env value "event_type" StringType))
  && (negb (isNull (base_cell env value "user_id" IntegerType))
  && (negb (isNull (to_timestamp env (base_cell env value "timestamp" StringType)))
  && true))).
Proof. reflexivity. Qed.

Lemma in_cleaned_df (df : list payload) (r : row) :
  In r (cleaned_df env df)
  ↔ ∃ value, In value df ∧ accepted env value = true ∧ r = table_row env value.
Proof.
  unfold cleaned_df, dropna, parsed_df. rewrite in_map_iff. split.
  - intros (pr & <- & Hin). apply filter_In in Hin as [Hin Hacc].
    apply in_map_iff in Hin as (value & <- & Hin). by exists value.
  - intros (value & Hin & Hacc & ->). exists (parsed_row env value).
    split; [done|]. apply filter_In. split; [|done].
    apply in_map_iff. by exists value.
Qed.

Lemma cleaned_df_single (value : payload) :
  cleaned_df env [value]
  = if accepted env value then [table_row env value] else [].
Proof.
  change (cleaned_df env [value])
    with (map (select final_columns)
            (if accepted env value then [parsed_row env value] else [])).
  by destruct (accepted env value).
Qed.

Lemma invalid_df_single (value : payload) :
  invalid_df env [value]
  = if invalid_row (parsed_row env value) then [parsed_row env value] else [].
Proof. reflexivity. Qed.

(** A field the payload gives no value for is a null cell. *)
Lemma absent_cell (value : payload) (n : string) (t : DataType) :
  absent value n → base_cell env value n t = CNull.
Proof.
  unfold base_cell, json_cell, field_token. destruct value as [o|]; [|done].
  intros [H|H]; simpl; rewrite H; simpl; by destruct (conversions_ok _ _ _).
Qed.

(** A string column holds a string or null. *)
Lemma string_cell (value : payload) (n : string) :
  base_cell env value n StringType = CNull
  ∨ ∃ s, base_cell env value n StringType = CString s.
Proof.
  unfold base_cell, json_cell. destruct value as [o|]; [|by left].
  destruct (conversions_ok _ _ _); [|by left].
  simpl. destruct (field_token o _); simpl; eauto.
Qed.

(** A key that is not a schema field is not read. *)
Lemma from_json_unknown_key (schema : list StructField)
    (o : gmap string jvalue) (k : string) (x : jvalue) :
  ¬ In k (map name schema) →
  from_json env schema (Some (<[k := x]> o)) = from_json env schema (Some o).
Proof.
  intros Hk.
  assert (Htok : ∀ f, In f schema → field_token (<[k := x]> o) f = field_token o f).
  { intros f Hf. unfold field_token. rewrite lookup_insert_ne; [done|].
    intros ->. apply Hk, in_map_iff. by exists f. }
  assert (Hok : conversions_ok env schema (<[k := x]> o) = conversions_ok env schema o).
  { unfold conversions_ok. f_equal. clear Hk.
    induction schema as [|f fs IH]; [done|]. simpl.
    rewrite IH by (intros; apply Htok; simpl; auto).
    by rewrite Htok by (simpl; auto). }
  unfold from_json. apply map_ext_in. intros f Hf.
  unfold json_cell. by rewrite Hok, Htok.
Qed.

Lemma parsed_row_unknown_key (o : gmap string jvalue) (k : string) (x : jvalue) :
  ¬ In k (map name ecommerce_base_schema) →
  parsed_row env (Some (<[k := x]> o)) = parsed_row env (Some o).
Proof. intros Hk. unfold parsed_row. by rewrite from_json_unknown_key. Qed.

(** The timestamp and date columns of a record whose timestamp text does not
    cast are null. *)
Lemma uncastable_timestamp (o : gmap string jvalue) (v : jvalue) :
  o !! "timestamp" = Some v → cast_timestamp env (json_text v) = None →
  to_timestamp env (base_cell env (Some o) "timestamp" StringType) = CNull.
Proof.
  intros Hv Hcast. unfold base_cell, json_cell, field_token. simpl. rewrite Hv.
  destruct (conversions_ok _ _ _); [|done].
  destruct v; simpl in *; try done; by rewrite Hcast.
Qed.

(** An accepted record has a string event type and a timestamp. *)
Lemma accepted_key_cells (value : payload) :
  accepted env value = true →
  ∃ ty t, base_cell env value "event_type" StringType = CString ty
        ∧ to_timestamp env (base_cell env value "timestamp" StringType) = CTimestamp t.
Proof.
  rewrite accepted_eq, !andb_true_iff. intros (_ & Hty & _ & Hts & _).
  destruct (string_cell value "event_type") as [E|[ty E]];
    [by rewrite E in Hty|].
  assert (∃ t, to_timestamp env (base_cell env value "timestamp" StringType)
               = CTimestamp t) as [t Ht]; [|by exists ty, t].
  revert Hts. unfold to_timestamp.
  destruct (base_cell env value "timestamp" StringType) as [|s|n|lit|t];
    try done; [|by exists t].
  destruct (cast_timestamp env s) as [t|]; [by exists t|done].
Qed.

End StreamingFacts.

(** *** Columns of the table rows *)

(** C10: every row the job writes has exactly the fifteen columns of the
    table, in the order of [CREATE TABLE]; a payload key outside these
    names is not a column of any row, and adding such a key to a payload
    changes neither whether the record is written nor its row. *)
Theorem table_rows_have_the_fifteen_columns (env : Session)
    (df : list payload) (r : row) :
  In r (cleaned_df env df) →
  columns r
  = [ "event_id"; "event_type"; "user_id"; "product_id"; "session_id";
      "location"; "device"; "timestamp"; "event_date"; "ip_address";
      "category"; "quantity"; "price"; "order_id"; "amount" ]%string
  ∧ columns r = map fst table_schema
  ∧ length r = 15%nat
  ∧ (∀ k, ¬ In k (map fst table_schema) → ¬ In k (columns r))
  ∧ (∀ o k x, ¬ In k (map fst table_schema) →
       cleaned_df env [Some (<[k := x]> o)] = cleaned_df env [Some o]).
Proof.
  intros Hr. apply in_cleaned_df in Hr as (value & _ & _ & ->).
  rewrite table_row_columns. repeat split; try done.
  intros o k x Hk. rewrite !cleaned_df_single.
  unfold accepted, table_row. rewrite parsed_row_unknown_key; [done|].
  intros Hin. apply Hk. simpl in Hin |- *. tauto.
Qed.

Lemma table_rows_have_the_fifteen_columns_witness :
  In (table_row Iso8601.utc_session (Some Examples.with_cart))
     (cleaned_df Iso8601.utc_session [Some Examples.with_cart])
  ∧ length (table_row Iso8601.utc_session (Some Examples.with_cart)) = 15%nat.
Proof.
  assert (H : In (table_row Iso8601.utc_session (Some Examples.with_cart))
                 (cleaned_df Iso8601.utc_session [Some Examples.with_cart])).
  { vm_compute. left. reflexivity. }
  split; [exact H|].
  apply (table_rows_have_the_fifteen_columns Iso8601.utc_session
           [Some Examples.with_cart] _ H).
Defined.

(** *** Unknown payload fields *)

(** C5, as the job behaves: a key that is not a field of the base schema
    never makes the job reject a record, and it is dropped: the record is
    accepted or not, and gives the same row, whether the key is there or
    not, and the row has no column that holds its value. *)
Theorem unknown_fields_are_ignored (env : Session) (o : gmap string jvalue)
    (k : string) (x : jvalue) :
  ¬ In k (map name ecommerce_base_schema) →
  accepted env (Some (<[k := x]> o)) = accepted env (Some o)
  ∧ table_row env (Some (<[k := x]> o)) = table_row env (Some o)
  ∧ (¬ In k final_columns →
     ¬ preserved_in (table_row env (Some (<[k := x]> o))) k x).
Proof.
  intros Hk. unfold accepted, table_row.
  rewrite parsed_row_unknown_key by done. repeat split.
  intros Hfin [Hin _]. by apply Hfin.
Qed.

Lemma unknown_fields_are_ignored_witness :
  ¬ In "cart_id"%string (map name ecommerce_base_schema)
  ∧ table_row Iso8601.utc_session (Some Examples.with_cart)
    = table_row Iso8601.utc_session (Some Examples.login_e1).
Proof.
  assert (H : ¬ In "cart_id"%string (map name ecommerce_base_schema)).
  { vm_compute. intuition discriminate. }
  split; [exact H|].
  apply (unknown_fields_are_ignored Iso8601.utc_session Examples.login_e1
           "cart_id" (JStr "c9") H).
Defined.

(** C5 as stated fails: the record with the extra key [cart_id] is accepted,
    and its row does not hold the key's value. *)
Lemma unknown_field_not_preserved :
  Examples.with_cart !! "cart_id"%string = Some (JStr "c9")
  ∧ ¬ In "cart_id"%string (map name ecommerce_base_schema)
  ∧ accepted Iso8601.utc_session (Some Examples.with_cart) = true
  ∧ ¬ preserved_in (table_row Iso8601.utc_session (Some Examples.with_cart))
        "cart_id" (JStr "c9").
Proof.
  repeat split.
  - vm_compute. intuition discriminate.
  - intros [Hin _]. vm_compute in Hin. intuition discriminate.
Qed.

(** *** Required fields *)

(** C4, as the job behaves: a record that gives no value to one of the four
    required fields yields no table row; every row written has the four
    fields non-null; and the record is sent to the invalid-records console
    sink, as its parsed columns, when the field is [event_id] or
    [event_type]. *)
Theorem required_fields_enforced (env : Session) (value : payload)
    (n : string) :
  In n required_fields → absent value n →
  accepted env value = false
  ∧ cleaned_df env [value] = []
  ∧ (n = "event_id"%string ∨ n = "event_type"%string →
     invalid_df env [value] = [parsed_row env value])
  ∧ (∀ df r m, In r (cleaned_df env df) → In m required_fields →
     isNull (col m r) = false).
Proof.
  intros Hn Habs.
  assert (Hacc : accepted env value = false).
  { rewrite accepted_eq. simpl in Hn.
    destruct Hn as [<-|[<-|[<-|[<-|[]]]]];
      rewrite (absent_cell env value _ _ Habs); simpl;
      rewrite ?andb_false_r; reflexivity. }
  split; [done|]. split; [by rewrite cleaned_df_single, Hacc|]. split.
  - intros Hwhich. rewrite invalid_df_single.
    replace (invalid_row (parsed_row env value)) with true; [done|].
    symmetry. unfold invalid_row. rewrite parsed_row_eq. cbn [col String.eqb Ascii.eqb Bool.eqb].
    destruct Hwhich as [->| ->]; rewrite (absent_cell env value _ _ Habs);
      simpl; rewrite ?orb_true_r; reflexivity.
  - intros df r m Hr Hm. apply in_cleaned_df in Hr as (v & _ & Hv & ->).
    rewrite accepted_eq, !andb_true_iff in Hv.
    destruct Hv as (H1 & H2 & H3 & H4 & _).
    simpl in Hm. destruct Hm as [<-|[<-|[<-|[<-|[]]]]];
      apply negb_true_iff; assumption.
Qed.

Lemma required_fields_enforced_witness :
  In "event_type"%string required_fields
  ∧ absent (Some Examples.no_type) "event_type"
  ∧ cleaned_df Iso8601.utc_session [Some Examples.no_type] = [].
Proof.
  assert (Hn : In "event_type"%string required_fields).
  { vm_compute. tauto. }
  assert (Ha : absent (Some Examples.no_type) "event_type").
  { left. vm_compute. reflexivity. }
  split; [exact Hn|]. split; [exact Ha|].
  apply (required_fields_enforced Iso8601.utc_session
           (Some Examples.no_type) "event_type" Hn Ha).
Defined.

(** C4 as stated fails on its own scenario: the record without [user_id]
    yields no table row and is not sent to the invalid-records sink. *)
Lemma missing_user_id_not_routed :
  absent (Some Examples.no_user) "user_id"
  ∧ cleaned_df Iso8601.utc_session [Some Examples.no_user] = []
  ∧ invalid_df Iso8601.utc_session [Some Examples.no_user] = [].
Proof. split; [left|split]; vm_compute; reflexivity. Qed.

(** *** Timestamps that do not parse *)

(** C7, as the job behaves: a record whose [timestamp] has a value that
    does not cast to a timestamp gets a null [timestamp] and a null
    [event_date], and the required-field filter then keeps it out of the
    table: the rejection is part of validation, and no partition key is
    computed for it. *)
Theorem unparseable_timestamp_fails_validation (env : Session)
    (o : gmap string jvalue) (v : jvalue) :
  o !! "timestamp"%string = Some v → v ≠ JNull →
  cast_timestamp env (json_text v) = None →
  col "timestamp" (parsed_row env (Some o)) = CNull
  ∧ col "event_date" (parsed_row env (Some o)) = CNull
  ∧ accepted env (Some o) = false
  ∧ cleaned_df env [Some o] = [].
Proof.
  intros Hv _ Hcast.
  pose proof (uncastable_timestamp env o v Hv Hcast) as Hts.
  assert (Hacc : accepted env (Some o) = false).
  { rewrite accepted_eq, Hts. simpl. by rewrite !andb_false_r. }
  rewrite cleaned_df_single, Hacc, parsed_row_eq.
  cbn [col String.eqb Ascii.eqb Bool.eqb]. by rewrite Hts.
Qed.

Lemma unparseable_timestamp_fails_validation_witness :
  Examples.bad_time !! "timestamp"%string = Some (JStr "not-a-date")
  ∧ cast_timestamp Iso8601.utc_session "not-a-date" = None
  ∧ cleaned_df Iso8601.utc_session [Some Examples.bad_time] = [].
Proof.
  assert (Hv : Examples.bad_time !! "timestamp"%string = Some (JStr "not-a-date")).
  { vm_compute. reflexivity. }
  assert (Hc : cast_timestamp Iso8601.utc_session (json_text (JStr "not-a-date")) = None).
  { vm_compute. reflexivity. }
  split; [exact Hv|]. split; [exact Hc|].
  apply (unparseable_timestamp_fails_validation Iso8601.utc_session
           Examples.bad_time (JStr "not-a-date") Hv
           ltac:(discriminate) Hc).
Defined.

(** C7 as stated fails: the record with the timestamp [not-a-date] has its
    four required fields, is not written to the table, and is not sent to
    the invalid-records sink either. *)
Lemma unparseable_timestamp_dropped_silently :
  (∀ n, In n required_fields → ¬ absent (Some Examples.bad_time) n)
  ∧ cast_timestamp Iso8601.utc_session "not-a-date" = None
  ∧ cleaned_df Iso8601.utc_session [Some Examples.bad_time] = []
  ∧ invalid_df Iso8601.utc_session [Some Examples.bad_time] = [].
Proof.
  split; [|repeat split; vm_compute; reflexivity].
  intros n Hn [H|H]; simpl in Hn;
    destruct Hn as [<-|[<-|[<-|[<-|[]]]]]; vm_compute in H; discriminate.
Qed.

(** *** The partition key *)

(** C3, as the job behaves: the partition key of a written row is the pair
    of its [event_type] and [event_date] columns, a function of the record
    and the session alone; [event_date] is the calendar date of the
    timestamp in the session time zone, which is the UTC date when that
    zone is UTC; two written rows with the same event type whose timestamps
    fall on the same date of the session zone have the same key. *)
Theorem partition_key_is_type_and_session_date (env : Session)
    (v1 v2 : payload) :
  accepted env v1 = true → accepted env v2 = true →
  (∃ ty t,
      col "event_type" (table_row env v1) = CString ty
      ∧ col "timestamp" (table_row env v1) = CTimestamp t
      ∧ partitionKey (table_row env v1)
        = [CString ty; CString (format_date (local_days env t))]
      ∧ (session_zone env t = 0 → local_days env t = utc_days t))
  ∧ (∀ t1 t2,
      col "event_type" (table_row env v1) = col "event_type" (table_row env v2) →
      col "timestamp" (table_row env v1) = CTimestamp t1 →
      col "timestamp" (table_row env v2) = CTimestamp t2 →
      local_days env t1 = local_days env t2 →
      partitionKey (table_row env v1) = partitionKey (table_row env v2)).
Proof.
  intros H1 H2.
  destruct (accepted_key_cells env v1 H1) as (ty1 & t1 & Hty1 & Hts1).
  destruct (accepted_key_cells env v2 H2) as (ty2 & t2 & Hty2 & Hts2).
  unfold partitionKey, table_row. rewrite !parsed_row_eq.
  cbn [select map final_columns partition_columns col String.eqb Ascii.eqb Bool.eqb].
  rewrite Hty1, Hty2, Hts1, Hts2. simpl date_format. split.
  - exists ty1, t1. repeat split.
    unfold local_days. by intros ->.
  - intros t1' t2' Hty E1 E2 Hdays.
    injection E1 as <-. injection E2 as <-. by rewrite Hty, Hdays.
Qed.

Lemma partition_key_is_type_and_session_date_witness :
  accepted Iso8601.utc_session (Some Examples.checkout_2230) = true
  ∧ accepted Iso8601.utc_session (Some Examples.checkout_2330) = true
  ∧ partitionKey (table_row Iso8601.utc_session (Some Examples.checkout_2230))
    = partitionKey (table_row Iso8601.utc_session (Some Examples.checkout_2330)).
Proof.
  assert (H1 : accepted Iso8601.utc_session (Some Examples.checkout_2230) = true).
  { vm_compute. reflexivity. }
  assert (H2 : accepted Iso8601.utc_session (Some Examples.checkout_2330) = true).
  { vm_compute. reflexivity. }
  split; [exact H1|]. split; [exact H2|].
  apply (proj2 (partition_key_is_type_and_session_date Iso8601.utc_session
                  (Some Examples.checkout_2230) (Some Examples.checkout_2330)
                  H1 H2) 1704148200000000 1704151800000000);
    vm_compute; reflexivity.
Defined.

(** C3 as stated fails in a session that is not in UTC: one hour east of
    UTC, two checkouts at 22:30 and 23:30 UTC of the same day are both
    written, have the same event type and the same UTC date, and get
    different partition keys; the second one's [event_date] is the next
    day. *)
Lemma partition_key_not_utc_date :
  let r1 := table_row Examples.plus_one_hour (Some Examples.checkout_2230) in
  let r2 := table_row Examples.plus_one_hour (Some Examples.checkout_2330) in
  accepted Examples.plus_one_hour (Some Examples.checkout_2230) = true
  ∧ accepted Examples.plus_one_hour (Some Examples.checkout_2330) = true
  ∧ col "event_type" r1 = col "event_type" r2
  ∧ col "timestamp" r1 = CTimestamp 1704148200000000
  ∧ col "timestamp" r2 = CTimestamp 1704151800000000
  ∧ utc_days 1704148200000000 = utc_days 1704151800000000
  ∧ format_date (utc_days 1704151800000000) = "2024-01-01"%string
  ∧ col "event_date" r2 = CString "2024-01-02"
  ∧ partitionKey r1 ≠ partitionKey r2.
Proof.
  cbv zeta. repeat split; try (vm_compute; reflexivity).
  vm_compute. discriminate.
Qed.

(** ** The block around the streaming writer *)

Section DriverFacts.

Import Driver.

Lemma run_writer_failure (engine : Engine) :
  (run_writer engine).2
  = match failure (engine 0%nat) with Some e => Raised e | None => Returned end.
Proof.
  unfold run_writer, failure.
  destruct (toTable (engine 0%nat)); [|done].
  by destruct (awaitAnyTermination (engine 0%nat)).
Qed.


End DriverFacts.



(** ** The ingress *)

Section ApiFacts.

Import Api.

Variable V : Validators.

Lemma absent_field (o : gmap string jvalue) (n : string) :
  absent (Some o) n → str_field V o n = None ∧ int_field V o n = None.
Proof. unfold str_field, int_field. by intros [-> | ->]. Qed.

Lemma fields_insert_ne (o : gmap string jvalue) (k n : string) (x : jvalue) :
  k ≠ n →
  str_field V (<[k := x]> o) n = str_field V o n
  ∧ int_field V (<[k := x]> o) n = int_field V o n.
Proof. intros H. unfold str_field, int_field. by rewrite lookup_insert_ne. Qed.

(** What a successful construction of the model says of the body. *)
Lemma parse_obj_inl (o : gmap string jvalue) (ev : EventModel) :
  parse_obj V o = inl ev ↔
  str_field V o "event_id" = Some (event_id ev)
  ∧ str_field V o "event_type" = Some (event_type ev)
  ∧ int_field V o "user_id" = Some (user_id ev)
  ∧ str_field V o "session_id" = Some (session_id ev)
  ∧ str_field V o "location" = Some (location ev)
  ∧ str_field V o "device" = Some (device ev)
  ∧ str_field V o "timestamp" = Some (timestamp ev)
  ∧ extra ev = filter (fun kv => kv.1 ∉ declared_fields) o.
Proof.
  unfold parse_obj. split.
  - destruct (str_field V o "event_id"), (str_field V o "event_type"),
      (int_field V o "user_id"), (str_field V o "session_id"),
      (str_field V o "location"), (str_field V o "device"),
      (str_field V o "timestamp"); try discriminate.
    by intros [= <-].
  - destruct ev. simpl. intros (-> & -> & -> & -> & -> & -> & -> & ->).
    reflexivity.
Qed.

Lemma parse_obj_missing (o : gmap string jvalue) (n : string) :
  In n declared_fields → absent (Some o) n →
  parse_obj V o = inr (List.filter (field_fails V o) declared_fields)
  ∧ In n (List.filter (field_fails V o) declared_fields).
Proof.
  intros Hn Habs. destruct (absent_field o n Habs) as [Hs Hi]. split.
  - unfold parse_obj. simpl in Hn.
    destruct Hn as [<-|[<-|[<-|[<-|[<-|[<-|[<-|[]]]]]]]];
      rewrite ?Hs, ?Hi; repeat case_match; reflexivity.
  - apply filter_In. split; [done|]. unfold field_fails.
    rewrite Hs, Hi. by destruct (String.eqb n "user_id").
Qed.

End ApiFacts.

(** C9: [POST /events] answers a body that lacks any of the seven declared
    fields [event_id], [event_type], [user_id], [session_id], [location],
    [device], [timestamp] with a request-validation error that names the
    field, and hands nothing to the producer; a key that is not a declared
    field does not affect validation and is carried, with its value, in the
    event the handler produces. *)
Theorem ingress_requires_seven_fields (V : Api.Validators)
    (raises : list Api.Message → Api.Message → bool)
    (sent : list Api.Message) :
  Api.declared_fields
  = ["event_id"; "event_type"; "user_id"; "session_id"; "location";
     "device"; "timestamp"]%string
  ∧ (∀ body n, In n Api.declared_fields → absent body n →
       ∃ invalid, Api.post_events V raises sent body = (Api.Http422 invalid, sent)
                  ∧ (body ≠ None → In n invalid))
  ∧ (∀ o k x ev, ¬ In k Api.declared_fields → Api.parse_obj V o = inl ev →
       ∃ ev', Api.parse_obj V (<[k := x]> o) = inl ev'
              ∧ Api.dict ev' !! k = Some x
              ∧ Api.post_events V raises sent (Some (<[k := x]> o))
                = Api.send_event raises sent ev').
Proof.
  split; [reflexivity|]. split.
  - intros [o|] n Hn Habs; [|by exists ["body"%string]].
    destruct (parse_obj_missing V o n Hn Habs) as [Hp Hin].
    exists (List.filter (Api.field_fails V o) Api.declared_fields).
    unfold Api.post_events. by rewrite Hp.
  - intros o k x ev Hk Hev.
    apply parse_obj_inl in Hev as (H1 & H2 & H3 & H4 & H5 & H6 & H7 & H8).
    set (ev' := {| Api.event_id := Api.event_id ev;
                   Api.event_type := Api.event_type ev;
                   Api.user_id := Api.user_id ev;
                   Api.session_id := Api.session_id ev;
                   Api.location := Api.location ev;
                   Api.device := Api.device ev;
                   Api.timestamp := Api.timestamp ev;
                   Api.extra := filter (fun kv => kv.1 ∉ Api.declared_fields)
                                  (<[k := x]> o) |}).
    assert (Hne : ∀ n, In n Api.declared_fields → k ≠ n).
    { intros n Hn ->. by apply Hk. }
    assert (Hev' : Api.parse_obj V (<[k := x]> o) = inl ev').
    { apply parse_obj_inl. simpl.
      rewrite !(λ n H, proj1 (fields_insert_ne V o k n x (Hne n H)))
        by (simpl; tauto).
      rewrite !(λ n H, proj2 (fields_insert_ne V o k n x (Hne n H)))
        by (simpl; tauto).
      done. }
    exists ev'. split; [done|]. split.
    + unfold Api.dict.
      rewrite !lookup_insert_ne by (apply not_eq_sym, Hne; simpl; tauto).
      simpl. apply map_lookup_filter_Some. split; [apply lookup_insert_eq|].
      simpl. rewrite list_elem_of_In. exact Hk.
    + unfold Api.post_events. by rewrite Hev'.
Qed.

Lemma ingress_requires_seven_fields_witness :
  absent (Some (delete "device"%string Examples.request)) "device"
  ∧ (∃ invalid,
       Api.post_events Api.exact_validators Examples.never []
         (Some (delete "device"%string Examples.request))
       = (Api.Http422 invalid, [])
       ∧ In "device"%string invalid)
  ∧ (∃ ev, Api.parse_obj Api.exact_validators Examples.request = inl ev
           ∧ Api.dict ev !! "cart_id"%string = Some (JStr "c9")).
Proof.
  assert (Ha : absent (Some (delete "device"%string Examples.request)) "device").
  { left. vm_compute. reflexivity. }
  split; [exact Ha|].
  pose proof (ingress_requires_seven_fields Api.exact_validators Examples.never [])
    as (_ & Hmissing & Hextra).
  split.
  - destruct (Hmissing _ "device"%string ltac:(simpl; tauto) Ha) as (invalid & E & Hin).
    exists invalid. split; [exact E|]. by apply Hin.
  - exists (Api.Build_EventModel "e1" "login" 1 "s1" "Oslo" "mobile"
              "2024-01-01T00:00:00Z"
              (filter (fun kv => kv.1 ∉ Api.declared_fields) Examples.request)).
    split; vm_compute; reflexivity.
Defined.

(** ** The commit protocol *)

Section CoordinatorFacts.

Import Coordinator.

Lemma staging_steps_writes (b : Batch) :
  staging_steps b = map on_staged (staged_writes b).
Proof.
  unfold staging_steps, staged_writes. rewrite map_app, map_map.
  by destruct (max_offset b).
Qed.

Lemma run_steps_on_staged (gs : list (Snapshot → Snapshot)) (s : Store) :
  run_steps (map on_staged gs) s
  = {| visible := visible s;
       staged := fold_left (fun n g => g n) gs <$> staged s |}.
Proof.
  revert s. induction gs as [|g gs IH]; intros s.
  - destruct s as [v [n|]]; reflexivity.
  - change (run_steps (map on_staged (g :: gs)) s)
      with (run_steps (map on_staged gs) (on_staged g s)).
    rewrite IH. by destruct s as [v [n|]].
Qed.

Lemma fold_appends (segs : list Segment) (n : Snapshot) :
  fold_left (fun n g => g n)
    (map (fun g n => {| segments := segments n ++ [g]; watermark := watermark n |}) segs)
    n
  = {| segments := segments n ++ segs; watermark := watermark n |}.
Proof.
  revert n. induction segs as [|g segs IH]; intros n; simpl.
  - rewrite app_nil_r. by destruct n.
  - rewrite IH. simpl. by rewrite <- app_assoc.
Qed.

Lemma fold_writes (b : Batch) (n : Snapshot) :
  fold_left (fun n g => g n) (staged_writes b) n = committed_snapshot b n.
Proof.
  unfold staged_writes, committed_snapshot. rewrite fold_left_app, fold_appends.
  by destruct (max_offset b).
Qed.

Lemma visible_crashed_at (k : nat) (b : Batch) (s : Store) :
  visible (crashed_at k b s) = visible s.
Proof.
  unfold crashed_at. rewrite staging_steps_writes, firstn_map.
  by rewrite run_steps_on_staged.
Qed.

Lemma commit_crash (k : nat) (b : Batch) (s : Store) :
  commit (Some k) b s = ({| visible := visible s; staged := None |}, false).
Proof.
  unfold commit, discard. by rewrite visible_crashed_at.
Qed.

Lemma commit_done (b : Batch) (s : Store) :
  commit None b s
  = ({| visible := committed_snapshot b (visible s); staged := None |}, true).
Proof.
  unfold commit. rewrite staging_steps_writes, run_steps_on_staged.
  unfold publish. simpl. by rewrite fold_writes.
Qed.

End CoordinatorFacts.

(** C2: a commit that crashes after any number of its staging writes, in
    particular between the append of the batch's segments and the update of
    the offset watermark, leaves the visible state as it was, during the
    attempt and after it; a commit that completes publishes the batch's
    segments and the watermark together; so a reader sees either neither
    or both. *)
Theorem commit_is_all_or_nothing (b : Coordinator.Batch)
    (s : Coordinator.Store) (k : nat) :
  Coordinator.visible (Coordinator.crashed_at k b s) = Coordinator.visible s
  ∧ Coordinator.staged
      (Coordinator.crashed_at (length (Coordinator.batch_segments b)) b s)
    = Some {| Coordinator.segments :=
                Coordinator.segments (Coordinator.visible s)
                ++ Coordinator.batch_segments b;
              Coordinator.watermark :=
                Coordinator.watermark (Coordinator.visible s) |}
  ∧ Coordinator.commit (Some k) b s
    = ({| Coordinator.visible := Coordinator.visible s;
          Coordinator.staged := None |}, false)
  ∧ Coordinator.commit None b s
    = ({| Coordinator.visible :=
            Coordinator.committed_snapshot b (Coordinator.visible s);
          Coordinator.staged := None |}, true)
  ∧ (∀ crash,
       Coordinator.visible (Coordinator.commit crash b s).1
       = Coordinator.visible s
       ∨ Coordinator.visible (Coordinator.commit crash b s).1
         = Coordinator.committed_snapshot b (Coordinator.visible s)).
Proof.
  split; [apply visible_crashed_at|].
  split; [|split; [apply commit_crash|split; [apply commit_done|]]].
  - unfold Coordinator.crashed_at, Coordinator.staging_steps.
    rewrite take_app_length' by (by rewrite length_map).
    pose proof (run_steps_on_staged
      (map (fun g n => {| Coordinator.segments := Coordinator.segments n ++ [g];
                          Coordinator.watermark := Coordinator.watermark n |})
           (Coordinator.batch_segments b)) (Coordinator.begin s)) as H.
    rewrite map_map in H. unfold Coordinator.appendSegment.
    rewrite H. simpl. by rewrite fold_appends.
  - intros [j|]; [left; by rewrite commit_crash|right; by rewrite commit_done].
Qed.

Section ConsumerFacts.

Import Coordinator.

Variable env : Session.
Variable log : list RawRecord.

Lemma filter_twice {A : Type} (f g : A → bool) (l : list A) :
  List.filter f (List.filter g l) = List.filter (fun x => g x && f x) l.
Proof.
  induction l as [|x l IH]; [done|]. simpl.
  destruct (g x); simpl; [|done]. destruct (f x); by rewrite IH.
Qed.

Lemma filter_split {A : Type} (P Q R : A → bool) (l : list A) :
  (∀ x, In x l → P x = Q x || R x) →
  (∀ x, In x l → Q x && R x = false) →
  List.filter P l ≡ₚ List.filter Q l ++ List.filter R l.
Proof.
  induction l as [|x l IH]; intros HP HQR; [done|].
  assert (IH' : List.filter P l ≡ₚ List.filter Q l ++ List.filter R l).
  { apply IH; intros y Hy; [apply HP|apply HQR]; by right. }
  specialize (HP x (or_introl eq_refl)). specialize (HQR x (or_introl eq_refl)).
  simpl. rewrite HP. destruct (Q x), (R x); simpl in *; try done.
  - by rewrite IH'.
  - rewrite IH'. apply Permutation_middle.
Qed.

Lemma add_to_segments_rows (r : row) (segs : list Segment) :
  concat (map seg_rows (add_to_segments r segs))
  ≡ₚ concat (map seg_rows segs) ++ [r].
Proof.
  induction segs as [|g segs IH]; [done|]. simpl.
  case_bool_decide; simpl.
  - rewrite <- !app_assoc. apply Permutation_app_head, Permutation_app_comm.
  - by rewrite IH, app_assoc.
Qed.

Lemma batch_segments_rows (b : Batch) :
  concat (map seg_rows (batch_segments b)) ≡ₚ map snd (batch_events b).
Proof.
  unfold batch_segments.
  enough (H : ∀ evs acc,
    concat (map seg_rows (fold_left (fun segs e => add_to_segments e.2 segs) evs acc))
    ≡ₚ concat (map seg_rows acc) ++ map snd evs) by apply (H _ []).
  induction evs as [|e evs IH]; intros acc; simpl.
  - by rewrite app_nil_r.
  - rewrite IH, add_to_segments_rows, <- app_assoc. done.
Qed.

(** The store after a poll. *)
Lemma store_consume (crash : option nat) (p : nat) (rs : list RawRecord)
    (st : State) :
  store (consume env crash p rs st)
  = {| visible :=
         match crash with
         | Some _ => visible (store st)
         | None => committed_snapshot (assemble env p (fresh (store st) rs))
                     (visible (store st))
         end;
       staged := None |}.
Proof.
  unfold consume. simpl. destruct crash as [k|].
  - by rewrite commit_crash.
  - by rewrite commit_done.
Qed.

Lemma polled_eq (st : State) (p lo hi : nat) :
  List.filter (valid env) (fresh (store st) (fetch log p lo hi)) = polled env log st p lo hi.
Proof. unfold fresh, fetch, polled. by rewrite !filter_twice. Qed.

Lemma max_offset_polled (st : State) (p lo hi : nat) :
  max_offset (assemble env p (fresh (store st) (fetch log p lo hi)))
  = match polled env log st p lo hi with
    | [] => None
    | rs => Some (max_list (map rec_offset rs))
    end.
Proof.
  unfold max_offset, assemble. simpl. rewrite polled_eq, map_map. simpl.
  by destruct (polled env log st p lo hi).
Qed.

Lemma in_polled (st : State) (p lo hi : nat) (r : RawRecord) :
  In r (polled env log st p lo hi) ↔
  In r log ∧ rec_partition r = p ∧ (lo ≤ rec_offset r < hi)%nat
  ∧ committed st r = false ∧ valid env r = true.
Proof.
  unfold polled, in_range. rewrite filter_In, !andb_true_iff, negb_true_iff,
    !bool_decide_eq_true. tauto.
Qed.

Lemma wm_le_refl (a : option nat) : wm_le a a.
Proof. destruct a; simpl; [lia|done]. Qed.

Lemma wm_le_trans (a b c : option nat) : wm_le a b → wm_le b c → wm_le a c.
Proof. destruct a, b, c; simpl; try done; lia. Qed.

(** The watermark of a partition after a poll that commits. *)
Lemma watermark_consume (p lo hi q : nat) (st : State) :
  readWatermark (store (consume env None p (fetch log p lo hi) st)) !! q
  = match polled env log st p lo hi with
    | [] => readWatermark (store st) !! q
    | rs => if decide (p = q) then Some (max_list (map rec_offset rs))
            else readWatermark (store st) !! q
    end.
Proof.
  rewrite store_consume. unfold readWatermark, committed_snapshot. simpl.
  rewrite max_offset_polled. destruct (polled env log st p lo hi) as [|r rs]; [done|].
  by rewrite lookup_insert.
Qed.

(** A polled record lies above the old watermark and at most at the new
    one. *)
Lemma polled_above (st : State) (p lo hi : nat) (r : RawRecord) :
  In r (polled env log st p lo hi) →
  wm_le (readWatermark (store st) !! p) (Some (rec_offset r))
  ∧ (rec_offset r ≤ max_list (map rec_offset (polled env log st p lo hi)))%nat.
Proof.
  intros Hr. split.
  - apply in_polled in Hr as (_ & Hp & _ & Hc & _).
    unfold committed, covered in Hc. rewrite Hp in Hc.
    destruct (readWatermark (store st) !! p) as [w|]; simpl; [|done].
    apply bool_decide_eq_false in Hc. lia.
  - apply max_list_elem_of_le, list_elem_of_In, in_map_iff. by exists r.
Qed.

Lemma step_watermark (st st' : State) (q : nat) :
  step env log st st' →
  wm_le (readWatermark (store st) !! q) (readWatermark (store st') !! q).
Proof.
  intros [p lo hi [k|] st0 Hlo|st0].
  - rewrite store_consume. apply wm_le_refl.
  - rewrite watermark_consume.
    destruct (polled env log st0 p lo hi) as [|r rs] eqn:E; [apply wm_le_refl|].
    destruct (decide (p = q)) as [<-|]; [|apply wm_le_refl].
    assert (Hr : In r (polled env log st0 p lo hi)) by (rewrite E; by left).
    apply polled_above in Hr as [H1 H2]. rewrite E in H2.
    eapply wm_le_trans; [exact H1|]. simpl. lia.
  - apply wm_le_refl.
Qed.

Lemma steps_watermark (st st' : State) (q : nat) :
  rtc (step env log) st st' →
  wm_le (readWatermark (store st) !! q) (readWatermark (store st') !! q).
Proof.
  induction 1 as [st|st st1 st2 Hstep _ IH]; [apply wm_le_refl|].
  eapply wm_le_trans; [by apply step_watermark|exact IH].
Qed.

(** The largest polled offset is the offset of a polled record. *)
Lemma polled_max (st : State) (p lo hi : nat) :
  polled env log st p lo hi ≠ [] →
  ∃ r, In r (polled env log st p lo hi)
       ∧ rec_offset r = max_list (map rec_offset (polled env log st p lo hi)).
Proof.
  intros Hne.
  assert (H : max_list (map rec_offset (polled env log st p lo hi))
              ∈ map rec_offset (polled env log st p lo hi)).
  { apply max_list_elem_of. by destruct (polled env log st p lo hi). }
  apply list_elem_of_In, in_map_iff in H as (r & Hoff & Hr). by exists r.
Qed.

(** What it means for the checkpoint to cover a record. *)
Lemma committed_true (st : State) (r : RawRecord) :
  committed st r = true ↔
  ∃ w, readWatermark (store st) !! rec_partition r = Some w
       ∧ (rec_offset r ≤ w)%nat.
Proof.
  unfold committed, covered.
  destruct (readWatermark (store st) !! rec_partition r) as [w|].
  - rewrite bool_decide_eq_true. split; [by exists w|by intros (? & [= <-] & ?)].
  - split; [done|by intros (? & ? & ?)].
Qed.

(** Which records the checkpoint covers after a poll that commits: those it
    covered before and the polled ones. *)
Lemma committed_consume (p lo hi : nat) (st : State) (r : RawRecord) :
  (lo ≤ resume_offset (store st) p)%nat → In r log → valid env r = true →
  committed (consume env None p (fetch log p lo hi) st) r
  = committed st r || (in_range p lo hi r && (negb (committed st r) && valid env r)).
Proof.
  intros Hlo Hr Hv.
  apply eq_true_iff_eq.
  rewrite orb_true_iff, !andb_true_iff, negb_true_iff, committed_true.
  rewrite watermark_consume.
  destruct (polled env log st p lo hi) as [|r0 rs] eqn:E.
  - rewrite <- committed_true. split; [by left|]. intros [H|(H1 & H2 & H3)]; [done|].
    assert (In r (polled env log st p lo hi)) as Hin.
    { apply filter_In. split; [done|]. by rewrite H1, H2, H3. }
    by rewrite E in Hin.
  - assert (Hne : polled env log st p lo hi ≠ []) by by rewrite E.
    rewrite <- E. clear E r0 rs.
    destruct (polled_max st p lo hi Hne) as (rm & Hrm & Hmax).
    pose proof (proj1 (polled_above st p lo hi rm Hrm)) as Hwm.
    apply in_polled in Hrm as (_ & Hpm & [_ Hhi] & _ & _).
    rewrite <- Hmax.
    destruct (decide (p = rec_partition r)) as [->|Hp].
    + split.
      * intros (w & [= <-] & Hle).
        destruct (committed st r) eqn:C; [by left|right].
        repeat split; try done. unfold in_range.
        rewrite !andb_true_iff, !bool_decide_eq_true. repeat split; [|lia].
        unfold resume_offset in Hlo. unfold committed, covered in C.
        destruct (readWatermark (store st) !! rec_partition r) as [w|];
          [|lia]. apply bool_decide_eq_false in C. lia.
      * intros [C|(Hin & C & _)]; exists (rec_offset rm); split; try done.
        -- apply committed_true in C as (w & Hw & Hle).
           rewrite Hw in Hwm. simpl in Hwm. lia.
        -- rewrite Hmax. apply polled_above, in_polled.
           unfold in_range in Hin.
           rewrite !andb_true_iff, !bool_decide_eq_true in Hin.
           destruct Hin as [[_ ?] ?]. repeat split; done || lia.
    + rewrite <- committed_true. split; [by left|].
      intros [H|(H1 & _)]; [done|]. unfold in_range in H1.
      rewrite !andb_true_iff, !bool_decide_eq_true in H1.
      destruct H1 as [[Heq _] _]. congruence.
Qed.

Lemma committed_events_split (p lo hi : nat) (st : State) :
  (lo ≤ resume_offset (store st) p)%nat →
  committed_events env log (consume env None p (fetch log p lo hi) st)
  ≡ₚ committed_events env log st
     ++ map (fun r => table_row env (rec_value r)) (polled env log st p lo hi).
Proof.
  intros Hlo. unfold committed_events, polled. rewrite <- map_app.
  apply Permutation_map, filter_split.
  - intros r Hr. destruct (valid env r) eqn:Hv; simpl.
    + rewrite committed_consume by done. by rewrite Hv, !andb_true_r.
    + by rewrite !andb_false_r.
  - intros r _. destruct (committed st r); simpl;
      by rewrite ?andb_false_r.
Qed.

(** The invariant: no transaction is left open and the table holds, once
    each, the Events of the records the checkpoint covers. *)
Lemma reachable_invariant (st : State) :
  reachable env log st →
  staged (store st) = None ∧ table_rows st ≡ₚ committed_events env log st.
Proof.
  unfold reachable. revert st. apply rtc_ind_r.
  { split; [done|]. unfold committed_events.
    replace (List.filter (fun r => valid env r && committed initial r) log)
      with (@nil RawRecord); [done|].
    induction log as [|r l IHl]; [done|]. simpl.
    unfold committed at 1, covered, readWatermark. simpl.
    by rewrite lookup_empty, andb_false_r. }
  intros st0 st1 _ Hstep [_ IH].
  destruct Hstep as [p lo hi [k|] st Hlo|st].
  - rewrite store_consume. split; [done|].
    unfold table_rows, committed_events, committed in *.
    by rewrite store_consume.
  - rewrite store_consume. split; [done|].
    rewrite committed_events_split by done.
    unfold table_rows. rewrite store_consume. simpl.
    rewrite map_app, concat_app, batch_segments_rows.
    unfold table_rows in IH. rewrite IH. apply Permutation_app_head.
    unfold assemble. simpl. rewrite polled_eq, map_map. done.
  - done.
Qed.

(** A delivery of records the checkpoint covers changes nothing. *)
Lemma replay_skipped (crash : option nat) (p lo hi : nat) (st : State) :
  staged (store st) = None → (hi ≤ resume_offset (store st) p)%nat →
  consume env crash p (fetch log p lo hi) st = st.
Proof.
  intros Hst Hhi.
  assert (Hfresh : fresh (store st) (fetch log p lo hi) = []).
  { unfold fresh, fetch. rewrite filter_twice.
    induction log as [|r l IHl]; [done|]. simpl. rewrite IHl.
    destruct (in_range p lo hi r) eqn:R; [|done]. simpl.
    unfold in_range in R.
    rewrite !andb_true_iff, !bool_decide_eq_true in R.
    destruct R as [[-> _] Hr]. unfold resume_offset in Hhi. unfold covered.
    destruct (readWatermark (store st) !! p) as [w|]; [|lia].
    rewrite bool_decide_eq_true_2 by lia. done. }
  destruct st as [[v stg] dl]. simpl in Hst. subst stg.
  unfold consume. cbn [store dead_letters] in Hfresh |- *.
  rewrite Hfresh. cbn [List.filter]. rewrite app_nil_r. f_equal.
  destruct crash as [k|]; [by rewrite commit_crash|].
  rewrite commit_done. simpl. unfold committed_snapshot, batch_segments. simpl.
  rewrite app_nil_r. by destruct v.
Qed.

Lemma cleaned_df_records (l : list RawRecord) :
  cleaned_df env (map rec_value l)
  = map (fun r => table_row env (rec_value r)) (List.filter (valid env) l).
Proof.
  unfold cleaned_df, dropna, parsed_df.
  induction l as [|r l IH]; [done|]. cbn [map List.filter].
  change (no_nulls required_fields (parsed_row env (rec_value r)))
    with (valid env r).
  destruct (valid env r); cbn [map]; by rewrite IH.
Qed.

Lemma converged_events (st : State) :
  converged env log st →
  committed_events env log st = cleaned_df env (map rec_value log).
Proof.
  intros Hconv. rewrite cleaned_df_records. unfold committed_events.
  f_equal. apply filter_ext_in. intros r Hr.
  destruct (valid env r) eqn:Hv; [|done]. by rewrite (Hconv r Hr Hv).
Qed.

(** A poll of a whole partition from its resume offset, committed, covers
    every valid record of that partition and uncovers none. *)
Lemma consume_covers (p : nat) (st : State) (r : RawRecord) :
  In r log → valid env r = true →
  committed st r = true ∨ rec_partition r = p →
  committed
    (consume env None p
       (fetch log p (resume_offset (store st) p)
          (S (max_list (map rec_offset log)))) st) r = true.
Proof.
  intros Hr Hv Hor. rewrite committed_consume by done.
  destruct (committed st r) eqn:C; [done|]. destruct Hor as [|<-]; [done|].
  rewrite Hv. simpl. rewrite andb_true_r. unfold in_range.
  rewrite !andb_true_iff, !bool_decide_eq_true. repeat split.
  - unfold resume_offset. unfold committed, covered in C.
    destruct (readWatermark (store st) !! rec_partition r) as [w|]; [|lia].
    apply bool_decide_eq_false in C. lia.
  - apply Nat.lt_succ_r, max_list_elem_of_le, list_elem_of_In, in_map_iff.
    by exists r.
Qed.

(** From any state, polling the partitions [ps] whole leads to a state whose
    checkpoint covers every valid record of these partitions. *)
Lemma drain (ps : list nat) (st : State) :
  ∃ st', rtc (step env log) st st'
         ∧ ∀ r, In r log → valid env r = true →
                committed st r = true ∨ In (rec_partition r) ps →
                committed st' r = true.
Proof.
  revert st. induction ps as [|p ps IH]; intros st.
  - exists st. split; [done|]. by intros r _ _ [?|[]].
  - destruct (IH (consume env None p
                    (fetch log p (resume_offset (store st) p)
                       (S (max_list (map rec_offset log)))) st))
      as (st' & Hrun & Hcov).
    exists st'. split.
    + eapply rtc_l; [|exact Hrun]. by apply step_poll.
    + intros r Hr Hv [Hc|[Hp|Hps]]; apply Hcov; try done;
        try (by right); left; apply consume_covers; auto.
Qed.

End ConsumerFacts.

Lemma run_final_reachable :
  Coordinator.reachable Iso8601.utc_session Examples.broker_log Examples.run_final.
Proof.
  unfold Coordinator.reachable.
  eapply rtc_r; [eapply rtc_r; [eapply rtc_r; [eapply rtc_r;
    [eapply rtc_once|]|]|]|].
  - apply (Coordinator.step_poll _ _ 0 0 11 (Some 1%nat)). vm_compute. lia.
  - apply Coordinator.step_restart.
  - apply (Coordinator.step_poll _ _ 0 0 13 None). vm_compute. lia.
  - apply (Coordinator.step_poll _ _ 0 5 13 None). vm_compute. lia.
  - apply (Coordinator.step_poll _ _ 1 0 1 None). vm_compute. lia.
Qed.

Lemma run_final_converged :
  Coordinator.converged Iso8601.utc_session Examples.broker_log Examples.run_final.
Proof.
  intros r Hr Hv. simpl in Hr.
  destruct Hr as [<-|[<-|[<-|[<-|[]]]]]; vm_compute in Hv |- *;
    reflexivity || discriminate.
Qed.





(** ** More on the streaming job *)

Section StreamingMore.

Variable env : Session.

Lemma cleaned_df_app (a b : list payload) :
  cleaned_df env (a ++ b) = cleaned_df env a ++ cleaned_df env b.
Proof.
  unfold cleaned_df, dropna, parsed_df.
  by rewrite map_app, List.filter_app, map_app.
Qed.

Lemma invalid_df_app (a b : list payload) :
  invalid_df env (a ++ b) = invalid_df env a ++ invalid_df env b.
Proof. unfold invalid_df, parsed_df. by rewrite map_app, List.filter_app. Qed.

(** A record that is written is not sent to the invalid-records sink. *)
Lemma accepted_not_invalid (value : payload) :
  accepted env value = true → invalid_row (parsed_row env value) = false.
Proof.
  rewrite accepted_eq, !andb_true_iff, !negb_true_iff.
  intros (H1 & H2 & _). unfold invalid_row. rewrite parsed_row_eq.
  cbn [col String.eqb Ascii.eqb Bool.eqb]. by rewrite H1, H2.
Qed.

Lemma written_plus_logged (df : list payload) :
  (length (cleaned_df env df) + length (invalid_df env df) ≤ length df)%nat.
Proof.
  induction df as [|v df IH]; [done|].
  change (v :: df) with ([v] ++ df).
  rewrite cleaned_df_app, invalid_df_app, !length_app.
  rewrite cleaned_df_single, invalid_df_single.
  pose proof (accepted_not_invalid v) as H.
  destruct (accepted env v); [rewrite H by done|];
    destruct (invalid_row (parsed_row env v)); simpl in *; lia.
Qed.

(** The cells of an integer and of a double column. *)
Lemma int_cell (value : payload) (n : string) :
  base_cell env value n IntegerType = CNull
  ∨ ∃ k, base_cell env value n IntegerType = CInt k ∧ Typing.int32 k = true.
Proof.
  unfold base_cell, json_cell. destruct value as [o|]; [|by left].
  destruct (conversions_ok _ _ _); [|by left].
  simpl. destruct (field_token o _) as [| |k| | |]; simpl; eauto.
  fold (Typing.int32 k). destruct (Typing.int32 k) eqn:E; simpl; eauto.
Qed.

Lemma double_cell (value : payload) (n : string) :
  base_cell env value n DoubleType = CNull
  ∨ ∃ lit, base_cell env value n DoubleType = CDouble lit.
Proof.
  unfold base_cell, json_cell. destruct value as [o|]; [|by left].
  destruct (conversions_ok _ _ _); [|by left].
  simpl. destruct (field_token o _) as [| | | |s|]; simpl; eauto.
  case_bool_decide; simpl; eauto.
Qed.

Lemma timestamp_cell (c : cell) :
  to_timestamp env c = CNull ∨ ∃ t, to_timestamp env c = CTimestamp t.
Proof.
  destruct c as [|s| | |t]; simpl; eauto.
  destruct (cast_timestamp env s); eauto.
Qed.

Lemma table_row_eq (value : payload) :
  table_row env value =
  [ ("event_id", base_cell env value "event_id" StringType);
    ("event_type", base_cell env value "event_type" StringType);
    ("user_id", base_cell env value "user_id" IntegerType);
    ("product_id", base_cell env value "product_id" StringType);
    ("session_id", base_cell env value "session_id" StringType);
    ("location", base_cell env value "location" StringType);
    ("device", base_cell env value "device" StringType);
    ("timestamp", to_timestamp env (base_cell env value "timestamp" StringType));
    ("event_date",
     date_format env (to_timestamp env (base_cell env value "timestamp" StringType)));
    ("ip_address", base_cell env value "ip_address" StringType);
    ("category", base_cell env value "category" StringType);
    ("quantity", base_cell env value "quantity" IntegerType);
    ("price", base_cell env value "price" DoubleType);
    ("order_id", base_cell env value "order_id" StringType);
    ("amount", base_cell env value "amount" DoubleType) ]%string.
Proof. reflexivity. Qed.

(** When a conversion fails and partial results are off, every cell of the
    record is null. *)
Lemma failed_conversion_nulls (o : gmap string jvalue) (f : StructField)
    (n : string) (t : DataType) :
  partial_results env = false → In f ecommerce_base_schema →
  convert (dataType f) (field_token o f) = None →
  base_cell env (Some o) n t = CNull.
Proof.
  intros Hp Hf Hc. unfold base_cell, json_cell.
  replace (conversions_ok env ecommerce_base_schema o) with false; [done|].
  symmetry. unfold conversions_ok. rewrite Hp, orb_false_l.
  apply not_true_is_false. intros Hall.
  rewrite forallb_forall in Hall. specialize (Hall f Hf).
  rewrite Hc in Hall. by apply bool_decide_eq_true in Hall as [? ?].
Qed.

(** A cell that is not null comes from a record whose conversions went
    through, and is the conversion of the payload's token. *)
Lemma cell_not_null (o : gmap string jvalue) (n : string) (t : DataType) :
  base_cell env (Some o) n t ≠ CNull →
  conversions_ok env ecommerce_base_schema o = true
  ∧ convert t (default JNull (o !! n)) = Some (base_cell env (Some o) n t).
Proof.
  unfold base_cell, json_cell, field_token. simpl.
  destruct (conversions_ok _ _ _); [|done]. intros H. split; [done|].
  by destruct (convert t (default JNull (o !! n))).
Qed.

Lemma cell_converted (o : gmap string jvalue) (n : string) (t : DataType) :
  conversions_ok env ecommerce_base_schema o = true →
  base_cell env (Some o) n t = default CNull (convert t (default JNull (o !! n))).
Proof. intros H. unfold base_cell, json_cell, field_token. simpl. by rewrite H. Qed.

End StreamingMore.

(** X1: the job treats a stream record by record: what is written and what
    is logged for two batches read one after the other is what is written
    and logged for the one batch that holds both, in the same order; no
    record is both written and logged, so the rows written and the rows
    logged are never more than the records read. *)
Theorem micro_batches_compose (env : Session) (a b : list payload) :
  cleaned_df env (a ++ b) = cleaned_df env a ++ cleaned_df env b
  ∧ invalid_df env (a ++ b) = invalid_df env a ++ invalid_df env b
  ∧ (∀ value, accepted env value = true →
       invalid_df env [value] = [])
  ∧ (length (cleaned_df env (a ++ b)) + length (invalid_df env (a ++ b))
     ≤ length a + length b)%nat.
Proof.
  split; [apply cleaned_df_app|]. split; [apply invalid_df_app|]. split.
  - intros value H. rewrite invalid_df_single.
    by rewrite accepted_not_invalid.
  - rewrite <- (length_app a b). apply written_plus_logged.
Qed.

(** X2: a record is dropped without a trace, neither written to the table
    nor sent to the invalid-records sink, exactly when its parsed [event_id]
    and [event_type] are not null and its parsed [user_id] or [timestamp]
    is. *)
Theorem silently_dropped_iff (env : Session) (value : payload) :
  (cleaned_df env [value] = [] ∧ invalid_df env [value] = [])
  ↔ (isNull (col "event_id" (parsed_row env value)) = false
     ∧ isNull (col "event_type" (parsed_row env value)) = false
     ∧ (isNull (col "user_id" (parsed_row env value)) = true
        ∨ isNull (col "timestamp" (parsed_row env value)) = true)).
Proof.
  rewrite cleaned_df_single, invalid_df_single, accepted_eq.
  unfold invalid_row. rewrite parsed_row_eq.
  cbn [col String.eqb Ascii.eqb Bool.eqb].
  destruct (isNull (base_cell env value "event_id" StringType)),
    (isNull (base_cell env value "event_type" StringType)),
    (isNull (base_cell env value "user_id" IntegerType)),
    (isNull (to_timestamp env (base_cell env value "timestamp" StringType)));
    simpl; intuition discriminate.
Qed.

(** X3: what the invalid-records sink receives: each of its rows is the
    parsed row of a record of the batch that is not written to the table,
    with the fourteen base columns in schema order and [event_date] last
    (not the table's column order); a record whose value is not a JSON
    object arrives there as fifteen nulls. *)
Theorem invalid_sink_rows (env : Session) (df : list payload) :
  (∀ r, In r (invalid_df env df) →
     ∃ value, In value df ∧ r = parsed_row env value
              ∧ accepted env value = false
              ∧ columns r
                = map name ecommerce_base_schema ++ ["event_date"%string]
              ∧ columns r ≠ map fst table_schema)
  ∧ (In None df →
     In (map (fun n => (n, CNull))
           (map name ecommerce_base_schema ++ ["event_date"%string]))
        (invalid_df env df)).
Proof.
  unfold invalid_df, parsed_df. split.
  - intros r Hr. apply filter_In in Hr as [Hr Hinv].
    apply in_map_iff in Hr as (value & <- & Hin).
    exists value. split; [done|]. split; [done|]. split.
    + destruct (accepted env value) eqn:Hacc; [|done].
      apply accepted_not_invalid in Hacc. congruence.
    + rewrite (proj1 (parsed_row_columns env value)). split; [done|].
      discriminate.
  - intros Hin. apply filter_In. split; [|reflexivity].
    apply in_map_iff. by exists None.
Qed.

(** X4: a record is written exactly when its fields convert (or partial
    results are on) and it gives a non-null [event_id] and [event_type], an
    integer token in the 32-bit range as [user_id], and a non-null
    [timestamp] whose text casts to a timestamp. *)
Theorem accepted_iff (env : Session) (o : gmap string jvalue) :
  accepted env (Some o) = true
  ↔ conversions_ok env ecommerce_base_schema o = true
    ∧ ∃ vid vty n vts t,
        o !! "event_id"%string = Some vid ∧ vid ≠ JNull
        ∧ o !! "event_type"%string = Some vty ∧ vty ≠ JNull
        ∧ o !! "user_id"%string = Some (JInt n) ∧ Typing.int32 n = true
        ∧ o !! "timestamp"%string = Some vts ∧ vts ≠ JNull
        ∧ cast_timestamp env (json_text vts) = Some t.
Proof.
  rewrite accepted_eq, !andb_true_iff, !negb_true_iff. split.
  - intros (H1 & H2 & H3 & H4 & _).
    assert (Hok : conversions_ok env ecommerce_base_schema o = true).
    { apply (cell_not_null env o "event_id" StringType). by intros E; rewrite E in H1. }
    split; [done|].
    rewrite !cell_converted in H1, H2, H3, H4 by done.
    destruct (o !! "event_id"%string) as [vid|]; [|done].
    destruct (o !! "event_type"%string) as [vty|]; [|done].
    destruct (o !! "user_id"%string) as [vuid|]; [|done].
    destruct (o !! "timestamp"%string) as [vts|]; [|done].
    simpl in *.
    destruct vuid as [| |n| | |]; try done. simpl in H3.
    fold (Typing.int32 n) in H3. destruct (Typing.int32 n) eqn:En; [|done].
    destruct (cast_timestamp env (json_text vts)) as [t|] eqn:Ec.
    + exists vid, vty, n, vts, t.
      repeat split; try done; by intros ->.
    + destruct vts; simpl in *; try done; by rewrite Ec in H4.
  - intros (Hok & vid & vty & n & vts & t & E1 & N1 & E2 & N2 & E3 & N3 & E4 & N4 & Ec).
    rewrite !cell_converted by done. rewrite E1, E2, E3, E4. simpl.
    unfold Typing.int32 in N3. rewrite N3.
    destruct vid, vty, vts; simpl in *; try done; by rewrite Ec.
Qed.

(** X5: a written row carries the values of its record: a string field of
    the payload is the string of its column, an integer field in the 32-bit
    range the integer of its column, a field the payload does not give is a
    null column, and the timestamp and date columns are the cast of the
    payload's timestamp and its date in the session zone. *)
Theorem written_row_values (env : Session) (o : gmap string jvalue) :
  accepted env (Some o) = true →
  (∀ n s, In n ["event_id"; "event_type"; "product_id"; "session_id";
                "location"; "device"; "ip_address"; "category";
                "order_id"]%string →
     o !! n = Some (JStr s) → col n (table_row env (Some o)) = CString s)
  ∧ (∀ n k, In n ["user_id"; "quantity"]%string →
     o !! n = Some (JInt k) → Typing.int32 k = true →
     col n (table_row env (Some o)) = CInt k)
  ∧ (∀ n, In n (map name ecommerce_base_schema) → absent (Some o) n →
     col n (table_row env (Some o)) = CNull)
  ∧ (∀ s t, o !! "timestamp"%string = Some (JStr s) →
     cast_timestamp env s = Some t →
     col "timestamp" (table_row env (Some o)) = CTimestamp t
     ∧ col "event_date" (table_row env (Some o))
       = CString (format_date (local_days env t))).
Proof.
  intros Hacc. apply accepted_iff in Hacc as [Hok _].
  rewrite table_row_eq. repeat split.
  - intros n s Hn Hs. simpl in Hn.
    repeat (destruct Hn as [<-|Hn];
            [cbn [col String.eqb Ascii.eqb Bool.eqb];
             by rewrite cell_converted, Hs by done|]).
    done.
  - intros n k Hn Hk Hr. simpl in Hn.
    repeat (destruct Hn as [<-|Hn];
            [cbn [col String.eqb Ascii.eqb Bool.eqb];
             rewrite cell_converted, Hk by done; simpl;
             unfold Typing.int32 in Hr; by rewrite Hr|]).
    done.
  - intros n Hn Habs. simpl in Hn.
    repeat (destruct Hn as [<-|Hn];
            [cbn [col String.eqb Ascii.eqb Bool.eqb];
             by rewrite (absent_cell env _ _ _ Habs)|]).
    done.
  - cbn [col String.eqb Ascii.eqb Bool.eqb].
    rewrite cell_converted, H by done. simpl. by rewrite H0.
  - cbn [col String.eqb Ascii.eqb Bool.eqb].
    rewrite cell_converted, H by done. simpl. by rewrite H0.
Qed.

Lemma written_row_values_witness :
  accepted Iso8601.utc_session (Some Examples.login_e1) = true
  ∧ col "event_id" (table_row Iso8601.utc_session (Some Examples.login_e1))
    = CString "e1".
Proof.
  assert (H : accepted Iso8601.utc_session (Some Examples.login_e1) = true).
  { vm_compute. reflexivity. }
  split; [exact H|].
  apply (proj1 (written_row_values Iso8601.utc_session Examples.login_e1 H)
           "event_id"%string "e1"%string).
  - simpl. tauto.
  - vm_compute. reflexivity.
Defined.

(** X6: every row the job builds for the table, from any record, has the
    table's fifteen columns in the order of [CREATE TABLE], and each cell is
    null or a value of its column's declared type: strings in the STRING
    columns, 32-bit integers in the INT columns, doubles in the DOUBLE
    columns, and a timestamp in [timestamp]. *)
Theorem rows_fit_table (env : Session) (value : payload) :
  Typing.fits_table (table_row env value).
Proof.
  rewrite table_row_eq. unfold Typing.fits_table, table_schema.
  repeat match goal with
  | |- Forall2 _ [] [] => constructor
  | |- Forall2 _ (_ :: _) (_ :: _) => constructor
  end; (split; [reflexivity|]); cbn [fst snd].
  all: try (match goal with
            | |- Typing.has_type STRING (base_cell _ _ ?n StringType) = true =>
                by destruct (string_cell env value n) as [->|[s ->]]
            | |- Typing.has_type INT (base_cell _ _ ?n IntegerType) = true =>
                by destruct (int_cell env value n) as [->|(k & -> & Hk)]
            | |- Typing.has_type DOUBLE (base_cell _ _ ?n DoubleType) = true =>
                by destruct (double_cell env value n) as [->|[lit ->]]
            end).
  - by destruct (timestamp_cell env (base_cell env value "timestamp" StringType))
      as [->|[t ->]].
  - by destruct (timestamp_cell env (base_cell env value "timestamp" StringType))
      as [->|[t ->]].
Qed.



(** ** More on the ingress *)

Section ApiMore.

Import Api.

(** The declared fields of [event.dict()]. *)
Lemma dict_declared (ev : EventModel) :
  dict ev !! "event_id"%string = Some (JStr (event_id ev))
  ∧ dict ev !! "event_type"%string = Some (JStr (event_type ev))
  ∧ dict ev !! "user_id"%string = Some (JInt (user_id ev))
  ∧ dict ev !! "session_id"%string = Some (JStr (session_id ev))
  ∧ dict ev !! "location"%string = Some (JStr (location ev))
  ∧ dict ev !! "device"%string = Some (JStr (device ev))
  ∧ dict ev !! "timestamp"%string = Some (JStr (timestamp ev)).
Proof. unfold dict. repeat split; by simplify_map_eq. Qed.

Lemma dict_extra (ev : EventModel) (k : string) :
  ¬ In k declared_fields → dict ev !! k = extra ev !! k.
Proof.
  intros Hk. unfold dict.
  rewrite !lookup_insert_ne; [done|..]; intros <-; apply Hk; simpl; tauto.
Qed.

Lemma exact_str_field (o : gmap string jvalue) (n s : string) :
  str_field exact_validators o n = Some s → o !! n = Some (JStr s).
Proof.
  unfold str_field. destruct (o !! n) as [[]|]; simpl; try done.
  by intros [= ->].
Qed.

Lemma exact_int_field (o : gmap string jvalue) (n : string) (k : Z) :
  int_field exact_validators o n = Some k → o !! n = Some (JInt k).
Proof.
  unfold int_field. destruct (o !! n) as [[]|]; simpl; try done.
  by intros [= ->].
Qed.

End ApiMore.



(** X9: when a [str] field takes only string tokens and an [int] field only
    integer tokens, the event handed to the producer is the request body,
    key for key: building the model and taking its dictionary gives back
    the body. *)
Theorem exact_round_trip (o : gmap string jvalue) (ev : Api.EventModel) :
  Api.parse_obj Api.exact_validators o = inl ev → Api.dict ev = o.
Proof.
  intros Hev.
  apply parse_obj_inl in Hev as (H1 & H2 & H3 & H4 & H5 & H6 & H7 & H8).
  apply exact_str_field in H1, H2, H4, H5, H6, H7.
  apply exact_int_field in H3.
  pose proof (dict_declared ev) as (D1 & D2 & D3 & D4 & D5 & D6 & D7).
  apply map_eq. intros k.
  destruct (decide (In k Api.declared_fields)) as [Hk|Hk].
  - simpl in Hk.
    destruct Hk as [<-|[<-|[<-|[<-|[<-|[<-|[<-|[]]]]]]]]; congruence.
  - rewrite dict_extra, H8 by done.
    destruct (o !! k) as [v|] eqn:E.
    + apply map_lookup_filter_Some. split; [done|].
      simpl. by rewrite list_elem_of_In.
    + apply map_lookup_filter_None. by left.
Qed.

Lemma exact_round_trip_witness :
  ∃ ev, Api.parse_obj Api.exact_validators Examples.request = inl ev
        ∧ Api.dict ev = Examples.request.
Proof.
  eexists. split; [vm_compute; reflexivity|].
  apply (exact_round_trip Examples.request). vm_compute. reflexivity.
Defined.

(** X10: the ingress accepts events the job then drops: of an event the
    ingress has built, the job writes a row only if the [user_id] is in the
    32-bit range and the [timestamp] string casts to a timestamp, and it
    does write one in that case when partial results are on; the row then
    holds the event's [event_id], [user_id] and [session_id], the last
    being the key of the Kafka message. *)
Theorem ingress_to_table (env : Session) (ev : Api.EventModel) :
  (accepted env (Some (Api.dict ev)) = true →
     Typing.int32 (Api.user_id ev) = true
     ∧ is_Some (cast_timestamp env (Api.timestamp ev))
     ∧ col "event_id" (table_row env (Some (Api.dict ev)))
       = CString (Api.event_id ev)
     ∧ col "user_id" (table_row env (Some (Api.dict ev)))
       = CInt (Api.user_id ev)
     ∧ col "session_id" (table_row env (Some (Api.dict ev)))
       = CString (Api.session_id ev))
  ∧ (partial_results env = true →
     Typing.int32 (Api.user_id ev) = true →
     is_Some (cast_timestamp env (Api.timestamp ev)) →
     accepted env (Some (Api.dict ev)) = true).
Proof.
  pose proof (dict_declared ev) as (D1 & D2 & D3 & D4 & D5 & D6 & D7).
  split.
  - intros Hacc.
    pose proof (written_row_values env _ Hacc) as (Hs & Hi & _ & _).
    apply accepted_iff in Hacc
      as (_ & vid & vty & n & vts & t & _ & _ & _ & _ & E3 & N3 & E4 & _ & Ec).
    rewrite D3 in E3. rewrite D7 in E4.
    injection E3 as <-. injection E4 as <-. simpl in Ec.
    split; [done|]. split; [by exists t|].
    split; [apply Hs; [simpl; tauto|done]|].
    split; [apply Hi; [simpl; tauto|done|done]|].
    apply Hs; [simpl; tauto|done].
  - intros Hp Hr [t Ht]. apply accepted_iff. split.
    + unfold conversions_ok. by rewrite Hp.
    + exists (JStr (Api.event_id ev)), (JStr (Api.event_type ev)),
        (Api.user_id ev), (JStr (Api.timestamp ev)), t.
      repeat split; done.
Qed.

(** ** The job script as a whole *)

Section JobFacts.

Import Driver Job.

Lemma append_cons (x : ascii) (a b : string) :
  String x a +:+ b = String x (a +:+ b).
Proof. reflexivity. Qed.

Lemma prefix_app_same (a b c : string) :
  String.prefix (a +:+ b) (a +:+ c) = String.prefix b c.
Proof.
  induction a as [|x a IH]; [done|]. rewrite !append_cons. simpl.
  by destruct (Ascii.ascii_dec x x).
Qed.

Lemma prefix_app_self (a b : string) : String.prefix a (a +:+ b) = true.
Proof.
  induction a as [|x a IH]; [by destruct b|]. rewrite append_cons. simpl.
  by destruct (Ascii.ascii_dec x x).
Qed.

Lemma string_app_assoc (a b c : string) : (a +:+ b) +:+ c = a +:+ (b +:+ c).
Proof.
  induction a as [|x a IH]; [done|]. rewrite !append_cons. by f_equal.
Qed.

(** The three shapes of the writer block's trace. *)
Lemma run_writer_trace (engine : Engine) :
  ∃ mid, (run_writer engine).1 = StartWriter 0 :: mid ++ [SparkStop]
         ∧ Forall (fun a => a ≠ SparkStop ∧ is_start a = false) mid.
Proof.
  unfold run_writer. destruct (toTable (engine 0%nat)) as [|e].
  - destruct (awaitAnyTermination (engine 0%nat)) as [|e].
    + exists [LogInfo; LogInfo; Await]. split; [done|].
      repeat constructor; done.
    + exists [LogInfo; LogInfo; Await; LogError e]. split; [done|].
      repeat constructor; done.
  - exists [LogError e]. split; [done|]. repeat constructor; done.
Qed.

Lemma run_writer_stops (engine : Engine) :
  List.filter is_stop (map Do (run_writer engine).1) = [Do SparkStop]
  ∧ List.filter is_writer_start (map Do (run_writer engine).1)
    = [Do (StartWriter 0)].
Proof.
  unfold run_writer. destruct (toTable (engine 0%nat)) as [|e]; [|done].
  by destruct (awaitAnyTermination (engine 0%nat)).
Qed.

End JobFacts.

(** X11: for every bucket name, the table lies under the warehouse path and
    the checkpoint does not, nor does the table lie under the checkpoint:
    table files and checkpoint files never share a directory; all three
    paths are in the bucket. *)
Theorem storage_locations (bucket : string) :
  String.prefix (Job.warehouse_path bucket) (Job.table_location bucket) = true
  ∧ String.prefix (Job.warehouse_path bucket) (Job.checkpoint_location bucket)
    = false
  ∧ String.prefix (Job.checkpoint_location bucket) (Job.table_location bucket)
    = false
  ∧ String.prefix ("s3a://" +:+ bucket +:+ "/") (Job.checkpoint_location bucket)
    = true
  ∧ String.prefix ("s3a://" +:+ bucket +:+ "/") (Job.warehouse_path bucket)
    = true.
Proof.
  unfold Job.table_location, Job.warehouse_path, Job.checkpoint_location.
  repeat split.
  - apply prefix_app_self.
  - by rewrite !prefix_app_same.
  - rewrite !string_app_assoc, !prefix_app_same. reflexivity.
  - rewrite !prefix_app_same.
    change "/checkpoint/ecommerce-stream"%string
      with ("/" +:+ "checkpoint/ecommerce-stream")%string.
    apply prefix_app_self.
  - rewrite !prefix_app_same.
    change "/iceberg-warehouse"%string with ("/" +:+ "iceberg-warehouse")%string.
    apply prefix_app_self.
Qed.

(** X12: the script does nothing at all, and ends with the ValueError,
    exactly when [ICEBERG_S3_BUCKET] is unset or empty; with any other
    value its first step is to create the session with the warehouse path
    of that bucket. *)
Theorem bucket_required (w : Job.World) :
  ((Job.main w).1 = []
   ↔ Job.ICEBERG_S3_BUCKET w = None
     ∨ Job.ICEBERG_S3_BUCKET w = Some ""%string)
  ∧ ((Job.main w).1 = [] → (Job.main w).2 = Driver.Raised Job.value_error)
  ∧ (∀ bucket, Job.ICEBERG_S3_BUCKET w = Some bucket → bucket ≠ ""%string →
       head (Job.main w).1
       = Some (Job.CreateSession (Job.warehouse_path bucket))).
Proof.
  assert (Hrun : ∀ bucket,
    ∃ rest, (Job.run bucket w).1
            = Job.CreateSession (Job.warehouse_path bucket) :: rest).
  { intros bucket. unfold Job.run.
    destruct (Job.getOrCreate w); [|by eexists].
    destruct (Job.create_database w); [|by eexists].
    destruct (Job.load w); [|by eexists].
    destruct (Job.start_invalid_query w); [|by eexists].
    destruct (Job.create_table w); by eexists. }
  unfold Job.main. destruct (Job.ICEBERG_S3_BUCKET w) as [bucket|].
  - destruct (String.eqb_spec bucket "") as [->|Hne].
    + repeat split; try done; auto. by intros b [= <-] Hb.
    + destruct (Hrun bucket) as [rest Hrest]. rewrite Hrest.
      repeat split; try done.
      * intros [|[= ->]]; done.
      * by intros b [= <-] _.
  - repeat split; try done; auto.
Qed.


(** X13: the streaming writer is started only after the session, the
    database, the Kafka source, the invalid-records query and the table
    have all been set up without error, then exactly once and after the
    table was created at its location under the warehouse; when one of
    these raises, the writer is never started and the script ends with
    that exception. *)
Theorem writer_start_guarded (w : Job.World) :
  (existsb Job.is_writer_start (Job.main w).1 = true
   ↔ Job.bucket_given w ∧ Job.setup_failure w = None)
  ∧ (length (List.filter Job.is_writer_start (Job.main w).1) ≤ 1)%nat
  ∧ (∀ bucket, Job.ICEBERG_S3_BUCKET w = Some bucket →
       existsb Job.is_writer_start (Job.main w).1 = true →
       In (Job.CreateTable (Job.table_location bucket)) (Job.main w).1)
  ∧ (∀ e, Job.bucket_given w → Job.setup_failure w = Some e →
       (Job.main w).2 = Driver.Raised e).
Proof.
  unfold Job.bucket_given, Job.main, Job.run, Job.setup_failure,
    Driver.run_writer.
  destruct (Job.ICEBERG_S3_BUCKET w) as [bucket|];
    [destruct (String.eqb_spec bucket "") as [->|Hne]|].
  - repeat split; try done; simpl; try lia.
    + by intros [(b & [= <-] & Hb) _].
    + by intros e (b & [= <-] & Hb) _.
  - destruct (Job.getOrCreate w), (Job.create_database w), (Job.load w),
      (Job.start_invalid_query w), (Job.create_table w),
      (Driver.toTable (Job.writer w 0%nat)),
      (Driver.awaitAnyTermination (Job.writer w 0%nat));
      simpl; repeat split; try done; try lia; try (by exists bucket);
      try (by intros [_ ?]); try (intros; congruence);
      try (intros b [= <-] _; tauto).
  - repeat split; try done; simpl; try lia.
    + by intros [(b & ? & _) _].
    + by intros e (b & ? & _) _.
Qed.

(** X14: once the session exists, every run of the script stops it, exactly
    once and as its last step, but one: when starting the invalid-records
    query raises, the script ends with that exception without stopping the
    session and without logging the error. *)
Theorem session_stopped_last (w : Job.World) :
  Job.bucket_given w → Job.getOrCreate w = Driver.Returned →
  (∀ e, Job.create_database w = Driver.Returned →
        Job.load w = Driver.Returned →
        Job.start_invalid_query w = Driver.Raised e →
        (Job.main w).2 = Driver.Raised e
        ∧ List.filter Job.is_stop (Job.main w).1 = []
        ∧ ¬ In (Job.Do (Driver.LogError e)) (Job.main w).1)
  ∧ (Job.create_database w ≠ Driver.Returned
     ∨ Job.load w ≠ Driver.Returned
     ∨ Job.start_invalid_query w = Driver.Returned →
     List.last (Job.main w).1 Job.SetLogLevel = Job.Do Driver.SparkStop
     ∧ List.filter Job.is_stop (Job.main w).1 = [Job.Do Driver.SparkStop]).
Proof.
  intros (bucket & Hb & Hne) Hs.
  unfold Job.main, Job.run, Driver.run_writer. rewrite Hb, Hs.
  destruct (String.eqb_spec bucket "") as [->|_]; [done|].
  destruct (Job.create_database w), (Job.load w),
    (Job.start_invalid_query w), (Job.create_table w),
    (Driver.toTable (Job.writer w 0%nat)),
    (Driver.awaitAnyTermination (Job.writer w 0%nat));
    simpl; split; try done; try (intros ? _ _ [= <-]);
    try (intros [?|[?|?]]; done);
    repeat split; try done; intuition discriminate.
Qed.

Lemma session_stopped_last_witness :
  let w := {| Job.ICEBERG_S3_BUCKET := Some "lake"%string;
              Job.getOrCreate := Driver.Returned;
              Job.create_database := Driver.Returned;
              Job.load := Driver.Returned;
              Job.start_invalid_query := Driver.Raised "console sink";
              Job.create_table := Driver.Returned;
              Job.writer := Examples.flaky |} in
  (Job.main w).2 = Driver.Raised "console sink"
  ∧ List.filter Job.is_stop (Job.main w).1 = [].
Proof.
  intros w.
  assert (Hb : Job.bucket_given w) by (by exists "lake"%string).
  pose proof (proj1 (session_stopped_last w Hb eq_refl)
                "console sink"%string eq_refl eq_refl eq_refl) as (H1 & H2 & _).
  split; [exact H1|exact H2].
Defined.

(** ** The event generator *)

Section GeneratorFacts.

Import Generator.

Lemma random_int_bounds (lo hi z : Z) :
  lo ≤ hi → lo ≤ random_int lo hi z ≤ hi.
Proof.
  intros H. unfold random_int.
  pose proof (Z.mod_pos_bound z (hi - lo + 1) ltac:(lia)). lia.
Qed.

Lemma event_type_cases (d : Draws) : In (event_type_of d) event_types.
Proof.
  unfold event_type_of, choice, event_types.
  change (length _) with 6%nat.
  pose proof (Nat.mod_upper_bound (event_type_ix d) 6 ltac:(lia)) as H.
  destruct (event_type_ix d mod 6)%nat as [|[|[|[|[|[|n]]]]]]; simpl; try tauto.
  lia.
Qed.

(** The event of each type, with the branch of [generate_event] taken. *)
Lemma generate_event_cases (d : Draws) :
  (event_type_of d = "login"%string
   ∧ generate_event d
     = update (base d)
         [ ("ip_address", JStr (ipv4 d));
           ("login_method",
            JStr (choice ["email_password"; "google"; "facebook"] (login_method_ix d)));
           ("user_agent", JStr (user_agent d));
           ("success", JBool (success d)) ]%string)
  ∨ (event_type_of d = "product_view"%string
     ∧ generate_event d
       = update (base d)
           [ ("product_id", JStr (product_id d));
             ("category",
              JStr (choice ["electronics"; "clothing"; "books"; "home"] (category_ix d)));
             ("search_query", JStr (word d));
             ("referrer",
              JStr (choice ["homepage"; "search"; "email"; "ads"] (referrer_ix d)));
             ("duration_seconds", JInt (random_int 10 300 (duration_z d))) ]%string)
  ∨ (event_type_of d = "add_to_cart"%string
     ∧ generate_event d
       = update (base d)
           [ ("product_id", JStr (product_id d));
             ("quantity", JInt (random_int 1 5 (quantity_z d)));
             ("price", JFloat (price_lit d));
             ("cart_id", JStr (cart_uuid d));
             ("was_wishlist_item", JBool (wishlist d)) ]%string)
  ∨ (event_type_of d = "checkout"%string
     ∧ generate_event d
       = update (base d)
           [ ("cart_id", JStr (cart_uuid d));
             ("total_items", JInt (random_int 1 10 (total_items_z d)));
             ("total_value", JFloat (total_value_lit d));
             ("shipping_address", JNested (shipping_address d));
             ("payment_method_selected",
              JStr (choice payment_methods (payment_method_ix d))) ]%string)
  ∨ (event_type_of d = "payment_success"%string
     ∧ generate_event d
       = update (base d)
           [ ("order_id", JStr (order_uuid d));
             ("cart_id", JStr (cart_uuid d));
             ("amount", JFloat (amount_lit d));
             ("payment_method", JStr (choice payment_methods (payment_method_ix d)));
             ("transaction_id", JStr (transaction_uuid d)) ]%string)
  ∨ (event_type_of d = "payment_failure"%string
     ∧ generate_event d
       = <["failure_reason" :=
             JStr (choice ["insufficient_funds"; "invalid_card"; "network_error"]
                     (failure_reason_ix d))]>
           (update (base d)
              [ ("order_id", JStr (order_uuid d));
                ("cart_id", JStr (cart_uuid d));
                ("amount", JFloat (amount_lit d));
                ("payment_method", JStr (choice payment_methods (payment_method_ix d)));
                ("transaction_id", JStr (transaction_uuid d)) ]%string)).
Proof.
  pose proof (event_type_cases d) as H. unfold generate_event.
  simpl in H.
  destruct H as [H|[H|[H|[H|[H|[H|[]]]]]]]; rewrite <- H; simpl; tauto.
Qed.

(** The base fields of every generated event. *)
Lemma generated_base (d : Draws) :
  generate_event d !! "event_id"%string = Some (JStr (event_uuid d))
  ∧ generate_event d !! "event_type"%string = Some (JStr (event_type_of d))
  ∧ generate_event d !! "user_id"%string
    = Some (JInt (random_int 1000 999999 (user_z d)))
  ∧ generate_event d !! "timestamp"%string = Some (JStr (iso8601 d))
  ∧ generate_event d !! "session_id"%string = Some (JStr (session_uuid d))
  ∧ generate_event d !! "location"%string = Some (JStr (city d))
  ∧ generate_event d !! "device"%string
    = Some (JStr (choice ["desktop"; "mobile"; "tablet"] (device_ix d))).
Proof.
  destruct (generate_event_cases d) as [[_ ->]|[[_ ->]|[[_ ->]|[[_ ->]|[[_ ->]|[_ ->]]]]]];
    unfold base, update; cbn [fold_left fst snd];
    repeat split; by simplify_map_eq.
Qed.

Lemma int32_random_int (lo hi z : Z) :
  - 2147483648 ≤ lo → lo ≤ hi → hi ≤ 2147483647 →
  Typing.int32 (random_int lo hi z) = true.
Proof.
  intros H1 H2 H3. pose proof (random_int_bounds lo hi z H2).
  unfold Typing.int32. apply andb_true_iff. split; apply Z.leb_le; lia.
Qed.

Lemma convert_int32 (k : Z) :
  Typing.int32 k = true → convert IntegerType (JInt k) = Some (CInt k).
Proof. unfold Typing.int32. simpl. by intros ->. Qed.

(** Every field of a generated event converts to its column type. *)
Lemma generated_converts (env : Session) (d : Draws) :
  conversions_ok env ecommerce_base_schema (generate_event d) = true.
Proof.
  unfold conversions_ok. apply orb_true_iff. right.
  apply forallb_forall. intros f Hf. apply bool_decide_eq_true.
  pose proof (int32_random_int 1000 999999 (user_z d)
                ltac:(lia) ltac:(lia) ltac:(lia)) as Hu.
  pose proof (int32_random_int 1 5 (quantity_z d)
                ltac:(lia) ltac:(lia) ltac:(lia)) as Hq.
  pose proof Hu as Hu'. pose proof Hq as Hq'.
  unfold Typing.int32 in Hu', Hq'. unfold field_token.
  destruct (generate_event_cases d) as [[_ ->]|[[_ ->]|[[_ ->]|[[_ ->]|[[_ ->]|[_ ->]]]]]];
    unfold base, update; cbn [fold_left fst snd];
    simpl in Hf;
    repeat (destruct Hf as [<-|Hf];
            [cbn [name dataType field]; simplify_map_eq;
             rewrite ?(convert_int32 _ Hu), ?(convert_int32 _ Hq), ?Hu', ?Hq';
             by eexists|]);
    done.
Qed.

End GeneratorFacts.

(** X15: every event the generator makes passes the ingress: it has the
    seven declared fields as string and integer tokens, so the request is
    never answered with a validation error; its type is one of the six
    event types, its [user_id] lies between 1000 and 999999, and the event
    handed to the producer is the generated event, key for key. *)
Theorem generated_events_pass_ingress (d : Generator.Draws)
    (raises : list Api.Message → Api.Message → bool)
    (sent : list Api.Message) :
  ∃ ev, Api.parse_obj Api.exact_validators (Generator.generate_event d) = inl ev
        ∧ Api.dict ev = Generator.generate_event d
        ∧ In (Api.event_type ev) Generator.event_types
        ∧ 1000 ≤ Api.user_id ev ≤ 999999
        ∧ Api.post_events Api.exact_validators raises sent
            (Some (Generator.generate_event d))
          = Api.send_event raises sent ev.
Proof.
  pose proof (generated_base d) as (B1 & B2 & B3 & B4 & B5 & B6 & B7).
  set (ev := {| Api.event_id := Generator.event_uuid d;
                Api.event_type := Generator.event_type_of d;
                Api.user_id := Generator.random_int 1000 999999 (Generator.user_z d);
                Api.session_id := Generator.session_uuid d;
                Api.location := Generator.city d;
                Api.device :=
                  Generator.choice ["desktop"; "mobile"; "tablet"]%string
                    (Generator.device_ix d);
                Api.timestamp := Generator.iso8601 d;
                Api.extra := filter (fun kv => kv.1 ∉ Api.declared_fields)
                               (Generator.generate_event d) |}).
  assert (Hev : Api.parse_obj Api.exact_validators (Generator.generate_event d)
                = inl ev).
  { apply parse_obj_inl. unfold Api.str_field, Api.int_field.
    rewrite B1, B2, B3, B4, B5, B6, B7. done. }
  exists ev. split; [done|]. split; [by apply exact_round_trip|].
  split; [apply event_type_cases|].
  split; [apply random_int_bounds; lia|].
  unfold Api.post_events. by rewrite Hev.
Qed.

(** X16: the job writes a generated event exactly when the session casts
    its [timestamp] string to a timestamp; nothing else in a generated event
    can make the job drop it, with partial results on or off. *)
Theorem generated_event_written_iff (env : Session) (d : Generator.Draws) :
  accepted env (Some (Generator.generate_event d)) = true
  ↔ is_Some (cast_timestamp env (Generator.iso8601 d)).
Proof.
  pose proof (generated_base d) as (B1 & B2 & B3 & B4 & _).
  rewrite accepted_iff. split.
  - intros (_ & vid & vty & n & vts & t & _ & _ & _ & _ & _ & _ & E4 & _ & Ec).
    rewrite B4 in E4. injection E4 as <-. by exists t.
  - intros [t Ht]. split; [apply generated_converts|].
    exists (JStr (Generator.event_uuid d)), (JStr (Generator.event_type_of d)),
      (Generator.random_int 1000 999999 (Generator.user_z d)),
      (JStr (Generator.iso8601 d)), t.
    repeat split; try done.
    apply int32_random_int; lia.
Qed.

(** X17: of the type-specific data the generator makes, the table keeps
    only [ip_address] of logins, [product_id] and [category] of product
    views, [product_id], [quantity] and [price] of cart additions, and
    [order_id] and [amount] of payments: any other of these seven columns
    is null, so a checkout keeps none of its details; and in a written row
    each of the kept ones is not null. *)
Theorem generated_details_stored (env : Session) (d : Generator.Draws)
    (n : string) :
  In n ["product_id"; "ip_address"; "category"; "quantity"; "price";
        "order_id"; "amount"]%string →
  (col n (table_row env (Some (Generator.generate_event d))) ≠ CNull →
   In (Generator.event_type_of d, n) Generator.stored_details)
  ∧ (accepted env (Some (Generator.generate_event d)) = true →
     In (Generator.event_type_of d, n) Generator.stored_details →
     col n (table_row env (Some (Generator.generate_event d))) ≠ CNull).
Proof.
  intros Hn.
  pose proof (generated_converts env d) as Hok.
  pose proof (int32_random_int 1 5 (Generator.quantity_z d)
                ltac:(lia) ltac:(lia) ltac:(lia)) as Hq.
  pose proof Hq as Hq'. unfold Typing.int32 in Hq'.
  rewrite table_row_eq. simpl in Hn.
  destruct (generate_event_cases d)
    as [[Ht E]|[[Ht E]|[[Ht E]|[[Ht E]|[[Ht E]|[Ht E]]]]]];
    rewrite Ht;
    repeat (destruct Hn as [<-|Hn];
            [cbn [col String.eqb Ascii.eqb Bool.eqb];
             rewrite cell_converted by done; rewrite E;
             unfold Generator.base, Generator.update; cbn [fold_left fst snd];
             simplify_map_eq; rewrite ?(convert_int32 _ Hq), ?Hq';
             split; [intros H; simpl in H |- *; tauto
                    |intros _ H; simpl in H |- *;
                     first [done | intuition congruence]]|]);
    done.
Qed.


Lemma generated_details_stored_witness :
  Generator.event_type_of Examples.checkout_draws = "checkout"%string
  ∧ col "order_id"
      (table_row Iso8601.utc_session
         (Some (Generator.generate_event Examples.checkout_draws))) = CNull.
Proof.
  split; [reflexivity|].
  destruct (decide (col "order_id"
                      (table_row Iso8601.utc_session
                         (Some (Generator.generate_event Examples.checkout_draws)))
                    = CNull)) as [E|E]; [exact E|].
  apply (generated_details_stored Iso8601.utc_session Examples.checkout_draws
           "order_id" ltac:(simpl; tauto)) in E.
  vm_compute in E. intuition discriminate.
Defined.
